(** * Production-line simulation: a shallow embedding and its properties

    The repository holds two programs for the same conveyor-belt exercise:

    - the C++ core ([ItemType], [Worker], [Belt], [ProductionLine]), embedded
      in module [Core];
    - the plain-array rewrite [simple.c], embedded in module [Simple].

    Heap objects of the C++ program are kept in a store indexed by address,
    pointers are [option addr] ([None] is the NULL pointer), the
    [typedef float probability] is IEEE-754 binary32 (the parameterised
    specification of the standard library at precision 24), and machine
    integers are [Z] with their wrap-around written out.  Undefined
    behaviour (a NULL or dangling dereference, an index outside the
    allocated cells) and a call that does not return are the [None] result
    of a fallible operation. *)

From Stdlib Require Import ZArith List Lia QArith.
From Stdlib Require Import Floats.SpecFloat.
From stdpp Require Import base option list gmap.
Import ListNotations.

#[local] Open Scope Z_scope.

(** ** Machine arithmetic shared by both programs *)

Definition u32 (z : Z) : Z := z mod 2 ^ 32.
Definition u64 (z : Z) : Z := z mod 2 ^ 64.

(** [typedef float probability]: binary32, round to nearest even. *)
Definition probability : Type := spec_float.

Definition prec32 : Z := 24.
Definition emax32 : Z := 128.

Definition fadd : probability -> probability -> probability := SFadd prec32 emax32.
Definition fsub : probability -> probability -> probability := SFsub prec32 emax32.
Definition fmul : probability -> probability -> probability := SFmul prec32 emax32.
Definition fdiv : probability -> probability -> probability := SFdiv prec32 emax32.
Definition fle : probability -> probability -> bool := SFleb.

(** The conversion [(probability) n] of an unsigned integer. *)
Definition float_of_Z (n : Z) : probability := binary_normalize prec32 emax32 n 0 false.

Definition fzero : probability := S754_zero false.
Definition fone : probability := float_of_Z 1.

(** The randomness helper is a supplier of draws; the [k]-th call of
    [getRandomNumber] returns [rng k]. *)
Definition random_source : Type := nat -> probability.

Module Core.

(** *** class ItemType *)

Definition addr : Type := nat.
Definition ptr : Type := option addr.

(** [#define NULL_ITEM_ID ~0], stored in and compared with a [u32int]. *)
Definition NULL_ITEM_ID : Z := u32 (-1).

(** The chain through [nextItemType] is held by the registry that owns it
    (see [Belt]); [componentsRequired] is NULL ([None]) or the entries of a
    NULL-terminated array. *)
Record ItemType : Type := mkItemType {
  name : Z;
  id : Z;
  weight : Z;
  generationProbability : probability;
  numberCollected : Z;
  componentsRequired : option (list addr)
}.

(** [ItemType()], the null item.  Neither constructor sets
    [generationProbability], and [ItemType(ascii)] does not set
    [componentsRequired] either: [p] and [c] are their indeterminate
    contents. *)
Definition ItemType_null (p : probability) : ItemType :=
  mkItemType 0 NULL_ITEM_ID 0 p 0 None.

(** [ItemType(ascii itemType)] *)
Definition ItemType_named (itemType : Z) (p : probability) (c : option (list addr))
  : ItemType :=
  mkItemType itemType (u32 itemType) 0 p 0 c.

Abbreviation store := (gmap addr ItemType).

Definition setComponentsRequired (crqd : option (list addr)) (it : ItemType) : ItemType :=
  mkItemType (name it) (id it) (weight it) (generationProbability it)
             (numberCollected it) crqd.

Definition setWeighting (w : Z) (it : ItemType) : ItemType :=
  mkItemType (name it) (id it) w (generationProbability it)
             (numberCollected it) (componentsRequired it).

Definition setGenerationProbability (p : probability) (it : ItemType) : ItemType :=
  mkItemType (name it) (id it) (weight it) p
             (numberCollected it) (componentsRequired it).

Definition incrementNumberCollected (it : ItemType) : ItemType :=
  mkItemType (name it) (id it) (weight it) (generationProbability it)
             (u32 (numberCollected it + 1)) (componentsRequired it).

(** [p->m(...)] for a mutating member: faults on a dangling pointer. *)
Definition update (f : ItemType -> ItemType) (a : addr) (h : store) : option store :=
  it ← h !! a; Some (<[a := f it]> h).

Definition getId (h : store) (a : addr) : option Z := id <$> h !! a.

(** The inner [while] of [assemble]: is the required component among the
    components available?  Both ids are read at every comparison. *)
Fixpoint componentFound (h : store) (required : addr) (available : list addr)
  : option bool :=
  match available with
  | [] => Some false
  | y :: ys =>
      ya ← getId h y;
      xr ← getId h required;
      if ya =? xr then Some true else componentFound h required ys
  end.

(** The outer [while] of [assemble]. *)
Fixpoint allComponentsFound (h : store) (required available : list addr)
  : option bool :=
  match required with
  | [] => Some true
  | x :: xs =>
      found ← componentFound h x available;
      if found : bool then allComponentsFound h xs available else Some false
  end.

(** [ItemType *assemble (ItemType **componentsAvailable)], called on [this]. *)
Definition assemble (h : store) (this : addr) (componentsAvailable : list addr)
  : option ptr :=
  me ← h !! this;
  match componentsRequired me with
  | None => Some None
  | Some required =>
      ok ← allComponentsFound h required componentsAvailable;
      Some (if ok : bool then Some this else None)
  end.

(** *** class Worker *)

Definition ASSEMBLE_TIME : Z := 4.

Record Worker : Type := mkWorker {
  position : Z;
  workerWeight : Z;
  workProbability : probability;
  doneWork : bool;
  amAssembling : Z;
  leftHand : ptr;
  rightHand : ptr
}.

(** [Worker()] *)
Definition Worker_new : Worker :=
  mkWorker 0 0 fzero false 0 None None.

Definition setPosition (p : Z) (w : Worker) : Worker :=
  mkWorker p (workerWeight w) (workProbability w) (doneWork w)
           (amAssembling w) (leftHand w) (rightHand w).

Definition setWorkerWeighting (x : Z) (w : Worker) : Worker :=
  mkWorker (position w) x (workProbability w) (doneWork w)
           (amAssembling w) (leftHand w) (rightHand w).

Definition setWorkProbability (p : probability) (w : Worker) : Worker :=
  mkWorker (position w) (workerWeight w) p (doneWork w)
           (amAssembling w) (leftHand w) (rightHand w).

Definition setHasDoneWork (b : bool) (w : Worker) : Worker :=
  mkWorker (position w) (workerWeight w) (workProbability w) b
           (amAssembling w) (leftHand w) (rightHand w).

Definition setAmAssembling (n : Z) (w : Worker) : Worker :=
  mkWorker (position w) (workerWeight w) (workProbability w) (doneWork w)
           n (leftHand w) (rightHand w).

Definition setLeftHand (p : ptr) (w : Worker) : Worker :=
  mkWorker (position w) (workerWeight w) (workProbability w) (doneWork w)
           (amAssembling w) p (rightHand w).

Definition setRightHand (p : ptr) (w : Worker) : Worker :=
  mkWorker (position w) (workerWeight w) (workProbability w) (doneWork w)
           (amAssembling w) (leftHand w) p.

(** [it == NULL || it->getId() == NULL_ITEM_ID]: the two sorts of empty slot. *)
Definition slotIsEmpty (h : store) (it : ptr) : option bool :=
  match it with
  | None => Some true
  | Some a => i ← getId h a; Some (i =? NULL_ITEM_ID)
  end.

(** The two hand tests of [doWork], run one after the other on a slot with
    contents; the result is the worker and what is left in the slot. *)
Definition fillHands (w : Worker) (it out : ptr) : Worker * ptr :=
  let '(w1, out1) :=
    match leftHand w with
    | None => if bool_decide (it ≠ rightHand w) then (setLeftHand it w, None)
              else (w, out)
    | Some _ => (w, out)
    end in
  match rightHand w1 with
  | None => if bool_decide (it ≠ leftHand w1) then (setRightHand it w1, None)
            else (w1, out1)
  | Some _ => (w1, out1)
  end.

(** The slot test of [doWork] and, on a slot with contents, the hand tests. *)
Definition takeFromSlot (h : store) (w : Worker) (it out : ptr)
  : option (Worker * ptr) :=
  empty ← slotIsEmpty h it;
  Some (if empty : bool then (w, out) else fillHands w it out).

(** The closing test of [doWork]: with both hands full, ask the finished
    product whether the hands combine, and start assembling if they do. *)
Definition startAssembling (h : store) (w : Worker) (finishedThing : ptr)
  : option Worker :=
  match leftHand w, rightHand w with
  | Some l, Some r =>
      ft ← finishedThing;
      made ← assemble h ft [l; r];
      Some (match made with
            | Some _ => setAmAssembling ASSEMBLE_TIME w
            | None => w
            end)
  | _, _ => Some w
  end.

(** [ItemType *doWork (ItemType *it, ItemType *finishedProductsToBuild)]:
    the worker after the call and the new contents of its slot. *)
Definition doWork (h : store) (w : Worker) (it finishedProductsToBuild : ptr)
  : option (Worker * ptr) :=
  let out := it in
  let finishedThing := finishedProductsToBuild in
  let w := setHasDoneWork true w in
  if 0 <? amAssembling w then
    let w := setAmAssembling (amAssembling w - 1) w in
    Some (w, if amAssembling w =? 0 then finishedThing else out)
  else
    '(w, out) ← takeFromSlot h w it out;
    w ← startAssembling h w finishedThing;
    Some (w, out).

(** *** class Belt *)

(** The registries are the chains from [workers] and [itemsToMake], head
    first; every object is linked into a chain once.  [finishedItems] is the
    head of its chain, of which the program reads nothing further.
    [beltSlots] are the cells of the allocated block, the first
    [numberOfSlots] of them the belt. *)
Record Belt : Type := mkBelt {
  numberOfSlots : Z;
  workers : list Worker;
  itemsToMake : list addr;
  finishedItems : ptr;
  totalItemWeighting : Z;
  totalWorkerWeighting : Z;
  currentWorkerMaxProbability : probability;
  beltSlots : list ptr
}.

Definition setWorkers (ws : list Worker) (b : Belt) : Belt :=
  mkBelt (numberOfSlots b) ws (itemsToMake b) (finishedItems b)
         (totalItemWeighting b) (totalWorkerWeighting b)
         (currentWorkerMaxProbability b) (beltSlots b).

Definition setCurrentWorkerMaxProbability (p : probability) (b : Belt) : Belt :=
  mkBelt (numberOfSlots b) (workers b) (itemsToMake b) (finishedItems b)
         (totalItemWeighting b) (totalWorkerWeighting b) p (beltSlots b).

Definition setBeltSlots (cells : list ptr) (b : Belt) : Belt :=
  mkBelt (numberOfSlots b) (workers b) (itemsToMake b) (finishedItems b)
         (totalItemWeighting b) (totalWorkerWeighting b)
         (currentWorkerMaxProbability b) cells.

(** [sizeof(ItemType)] and [sizeof(ItemType * )] of the LP64 layout: the
    constructor asks [malloc] for [slots * sizeof(ItemType)] bytes. *)
Definition SIZEOF_ItemType : Z := 40.
Definition SIZEOF_pointer : Z := 8.

Definition allocatedCells (slots : Z) : nat :=
  Z.to_nat (slots * SIZEOF_ItemType / SIZEOF_pointer).

(** [Belt(int slots)].  The constructor sets neither [finishedItems] nor the
    cells past the belt: [garbage] and [junk] are their indeterminate
    contents. *)
Definition Belt_new (slots : Z) (garbage : ptr) (junk : nat -> ptr) : Belt :=
  mkBelt (u32 slots) [] [] garbage 0 0 fone
         (replicate (Z.to_nat slots) None
            ++ map junk (seq (Z.to_nat slots) (allocatedCells slots - Z.to_nat slots))).

(** [beltSlots[i]] read and written, for an index computed in [int] or
    [u32int]. *)
Definition readCell (cells : list ptr) (i : Z) : option ptr :=
  if i <? 0 then None else cells !! Z.to_nat i.

Definition writeCell (cells : list ptr) (i : Z) (v : ptr) : option (list ptr) :=
  if (0 <=? i) && (i <? Z.of_nat (length cells))
  then Some (<[Z.to_nat i := v]> cells) else None.

Definition setSlot (itemType : ptr) (slot : Z) (b : Belt) : option Belt :=
  cells ← writeCell (beltSlots b) slot itemType; Some (setBeltSlots cells b).

Definition getSlot (b : Belt) (slot : Z) : option ptr := readCell (beltSlots b) slot.

(** The recalculation loop of [addWorker]. *)
Definition recalcWorker (total : Z) (wk : Worker) : Worker :=
  setWorkProbability (fdiv (float_of_Z (workerWeight wk)) (float_of_Z total)) wk.

(** [addWorker], for a [newWorker] that is not in the chain yet (a
    [new Worker()] in [main]). *)
Definition addWorker (newWorker : Worker) (position weighting : Z) (b : Belt) : Belt :=
  let newWorker := setWorkerWeighting weighting (setPosition position newWorker) in
  let total := u64 (totalWorkerWeighting b + weighting) in
  mkBelt (numberOfSlots b) (map (recalcWorker total) (newWorker :: workers b))
         (itemsToMake b) (finishedItems b) (totalItemWeighting b) total
         fone (beltSlots b).

(** The recalculation loop of [addItemFactory], down the chain. *)
Fixpoint recalcItems (total : Z) (chain : list addr) (h : store) : option store :=
  match chain with
  | [] => Some h
  | a :: rest =>
      it ← h !! a;
      let p := fdiv (float_of_Z (weight it)) (float_of_Z total) in
      recalcItems total rest (<[a := setGenerationProbability p it]> h)
  end.

(** An object that is in the chain already would close the chain into a
    ring, on which the recalculation loop does not end: no result. *)
Definition addItemFactory (newType : addr) (weighting : Z) (h : store) (b : Belt)
  : option (store * Belt) :=
  if bool_decide (newType ∈ itemsToMake b) then None
  else
    h ← update (setWeighting weighting) newType h;
    let total := u64 (totalItemWeighting b + weighting) in
    let chain := newType :: itemsToMake b in
    h ← recalcItems total chain h;
    Some (h, mkBelt (numberOfSlots b) (workers b) chain (finishedItems b)
                    total (totalWorkerWeighting b)
                    (currentWorkerMaxProbability b) (beltSlots b)).

(** [addFinishedItem], for a [fit] that is not an item factory: the two
    chains use the same [nextItemType] link. *)
Definition addFinishedItem (fit : addr) (b : Belt) : Belt :=
  mkBelt (numberOfSlots b) (workers b) (itemsToMake b) (Some fit)
         (totalItemWeighting b) (totalWorkerWeighting b)
         (currentWorkerMaxProbability b) (beltSlots b).

Definition getFinishedItems (b : Belt) : ptr := finishedItems b.

(** The [while] of [getNextItem] for the draw [p]: the selected item type,
    or NULL when [p] hits nothing. *)
Fixpoint selectItem (h : store) (p cumulative : probability) (chain : list addr)
  : option ptr :=
  match chain with
  | [] => Some None
  | a :: rest =>
      it ← h !! a;
      let cumulative := fadd cumulative (generationProbability it) in
      if fle p cumulative then Some (Some a) else selectItem h p cumulative rest
  end.

Definition getNextItem (h : store) (b : Belt) (p : probability) : option ptr :=
  selectItem h p fzero (itemsToMake b).

(** The [while] of [getNextWorker]: the place in the chain of the selected
    worker, counted from [k]. *)
Fixpoint selectWorker (p cumulative : probability) (chain : list Worker) (k : nat)
  : option nat :=
  match chain with
  | [] => None
  | wk :: rest =>
      if doneWork wk then selectWorker p cumulative rest (S k)
      else
        let cumulative := fadd cumulative (workProbability wk) in
        if fle p cumulative then Some k else selectWorker p cumulative rest (S k)
  end.

(** [Worker *getNextWorker()] for the draw [p]: the selected worker, as its
    place in the chain, and the belt with the probability space adjusted. *)
Definition getNextWorker (b : Belt) (p : probability) : option nat * Belt :=
  let p := fmul p (currentWorkerMaxProbability b) in
  match selectWorker p fzero (workers b) 0 with
  | Some k =>
      match workers b !! k with
      | Some wk =>
          (Some k, setCurrentWorkerMaxProbability
                     (fsub (currentWorkerMaxProbability b) (workProbability wk)) b)
      | None => (None, b)
      end
  | None => (None, b)
  end.

(** Accesses to [beltSlots] made by [advanceBelt], in program order. *)
Inductive access : Type :=
  | Rd (i : Z)
  | Wr (i : Z).

(** The counting loop, [for (int i = lastSlot; i > (lastSlot - n); i--)]
    with the comparison made in [u32int]; [bound] is [lastSlot - n] there.
    The loop variable is non-negative here.  Below [0] it is [-1], which
    compares as [2^32 - 1] and, inside the loop, indexes before the block. *)
Fixpoint countLoop (i : nat) (bound : Z) (cells : list ptr) (h : store)
  (log : list access) : option (store * list access) :=
  if Z.of_nat i >? bound then
    it ← readCell cells (Z.of_nat i);
    h ← match it with
        | Some a => update incrementNumberCollected a h
        | None => Some h
        end;
    match i with
    | S j => countLoop j bound cells h (log ++ [Rd (Z.of_nat i)])
    | O => if u32 (-1) >? bound then None else Some (h, log ++ [Rd 0])
    end
  else Some (h, log).

(** The moving loop, [for (int i = numberOfSlots; i > 0; i--)]. *)
Fixpoint moveLoop (i : nat) (n : Z) (cells : list ptr) (log : list access)
  : option (list ptr * list access) :=
  match i with
  | O => Some (cells, log)
  | S j =>
      let iz := Z.of_nat i in
      if iz >=? n then
        v ← readCell cells (iz - n);
        cells ← writeCell cells iz v;
        moveLoop j n cells (log ++ [Rd (iz - n); Wr iz])
      else
        cells ← writeCell cells iz None;
        moveLoop j n cells (log ++ [Wr iz])
  end.

(** [void advanceBelt (int n)], with the log of its cell accesses.  A
    [lastSlot] or [numberOfSlots] of [2^31] or more is a negative [int]. *)
Definition advanceBelt (n : Z) (h : store) (b : Belt)
  : option (store * Belt * list access) :=
  let lastSlot := u32 (numberOfSlots b - 1) in
  let bound := u32 (lastSlot - n) in
  '(h, log) ←
    (if lastSlot <? 2 ^ 31 then
       countLoop (Z.to_nat lastSlot) bound (beltSlots b) h []
     else if lastSlot >? bound then None else Some (h, []));
  '(cells, log) ←
    (if numberOfSlots b <? 2 ^ 31 then
       moveLoop (Z.to_nat (numberOfSlots b)) n (beltSlots b) log
     else Some (beltSlots b, log));
  Some (h,
        mkBelt (numberOfSlots b) (map (setHasDoneWork false) (workers b))
               (itemsToMake b) (finishedItems b) (totalItemWeighting b)
               (totalWorkerWeighting b) fone cells,
        log).

(** *** class ProductionLine *)

(** The machine: the heap of item types, the belt, the number of calls made
    to [getRandomNumber], and the calls made to [doWork], oldest first, each
    by the place of its worker in the chain. *)
Record Sim : Type := mkSim {
  heap : store;
  belt : Belt;
  drawn : nat;
  activations : list nat
}.

Inductive outcome : Type :=
  | Completed
  | SelectionFailed
  | Undefined.

(** One turn of the [for] loop of [runSim]. *)
Definition step (rng : random_source) (s : Sim) : outcome * Sim :=
  match getNextItem (heap s) (belt s) (rng (drawn s)) with
  | None => (Undefined, s)
  | Some None => (SelectionFailed, mkSim (heap s) (belt s) (S (drawn s)) (activations s))
  | Some (Some next) =>
      let result :=
        '(h, b, _) ← advanceBelt 1 (heap s) (belt s);
        b ← setSlot (Some next) 0 b;
        let '(wk, b) := getNextWorker b (rng (S (drawn s))) in
        k ← wk;
        w ← workers b !! k;
        let workerPosition := position w in
        it ← getSlot b workerPosition;
        '(w, newIt) ← doWork h w it (getFinishedItems b);
        b ← setSlot newIt workerPosition (setWorkers (<[k := w]> (workers b)) b);
        Some (mkSim h b (S (S (drawn s))) (activations s ++ [k])) in
      match result with
      | Some s' => (Completed, s')
      | None => (Undefined, s)
      end
  end.

(** [void runSim (u32int steps)] *)
Fixpoint runSim (rng : random_source) (steps : nat) (s : Sim) : outcome * Sim :=
  match steps with
  | O => (Completed, s)
  | S k =>
      match step rng s with
      | (Completed, s') => runSim rng k s'
      | stopped => stopped
      end
  end.

End Core.

Module Simple.

(** *** simple.c *)

Definition COMPONENT_A : Z := 1.
Definition COMPONENT_B : Z := 2.
Definition COMPONENT_P : Z := 3.
Definition COMPONENT_NULL : Z := 0.

Definition TIME_TO_BUILD_COMPONENT_P : Z := 4.

Definition INPUT_SLOT : Z := 0.
Definition OUTPUT_SLOT : Z := 4.

(** [struct worker] *)
Record worker : Type := mkworker {
  pos : Z;
  left : Z;
  right : Z;
  buildTimeLeft : Z
}.

(** [belt[i]] on the array of [OUTPUT_SLOT + 1] cells. *)
Definition rd (belt : list Z) (i : Z) : option Z :=
  if i <? 0 then None else belt !! Z.to_nat i.

Definition wr (belt : list Z) (i : Z) (v : Z) : option (list Z) :=
  if (0 <=? i) && (i <? Z.of_nat (length belt))
  then Some (<[Z.to_nat i := v]> belt) else None.

(** [void doWork (struct worker *w, char *belt)] *)
Definition doWork (w : worker) (belt : list Z) : option (worker * list Z) :=
  let '(w, assembling) :=
    if 0 <? buildTimeLeft w then
      let t := buildTimeLeft w - 1 in
      if t =? 0 then (mkworker (pos w) COMPONENT_NULL COMPONENT_P t, false)
      else (mkworker (pos w) (left w) (right w) t, true)
    else (w, false) in
  if assembling : bool then Some (w, belt)
  else if right w =? COMPONENT_P then
    slot ← rd belt (pos w);
    if slot =? COMPONENT_NULL then
      belt ← wr belt (pos w) COMPONENT_P;
      Some (mkworker (pos w) COMPONENT_NULL COMPONENT_NULL (buildTimeLeft w), belt)
    else Some (w, belt)
  else
    slot ← rd belt (pos w);
    if negb (slot =? COMPONENT_NULL) && negb (slot =? COMPONENT_P) then
      if right w =? COMPONENT_NULL then
        belt ← wr belt (pos w) COMPONENT_NULL;
        Some (mkworker (pos w) (left w) slot (buildTimeLeft w), belt)
      else if negb (right w =? slot) then
        belt ← wr belt (pos w) COMPONENT_NULL;
        Some (mkworker (pos w) slot (right w) TIME_TO_BUILD_COMPONENT_P, belt)
      else Some (w, belt)
    else Some (w, belt).

(** The four counters of [main]. *)
Record tally : Type := mktally {
  compA : Z;
  compB : Z;
  compP : Z;
  compNull : Z
}.

(** The four [if]s on [belt[OUTPUT_SLOT]] ([unsigned long] is 64 bits). *)
Definition countOutput (out : Z) (t : tally) : tally :=
  let t := if out =? COMPONENT_A
           then mktally (u64 (compA t + 1)) (compB t) (compP t) (compNull t) else t in
  let t := if out =? COMPONENT_B
           then mktally (compA t) (u64 (compB t + 1)) (compP t) (compNull t) else t in
  let t := if out =? COMPONENT_P
           then mktally (compA t) (compB t) (u64 (compP t + 1)) (compNull t) else t in
  if out =? COMPONENT_NULL
  then mktally (compA t) (compB t) (compP t) (u64 (compNull t + 1)) else t.

(** [for (bindex = OUTPUT_SLOT; bindex > 0; bindex--) belt[bindex] = belt[bindex - 1];] *)
Fixpoint moveBelt (bindex : nat) (belt : list Z) : option (list Z) :=
  match bindex with
  | O => Some belt
  | S j =>
      v ← rd belt (Z.of_nat bindex - 1);
      belt ← wr belt (Z.of_nat bindex) v;
      moveBelt j belt
  end.

(** [for (windex = 0; windex < NUMBER_OF_WORKERS; windex++) doWork (&workers[windex], belt);]
    together with the workers in the order they were called. *)
Fixpoint workAll (workers : list worker) (windex : nat) (belt : list Z)
  : option (list worker * list Z * list nat) :=
  match workers with
  | [] => Some ([], belt, [])
  | w :: rest =>
      '(w, belt) ← doWork w belt;
      '(rest, belt, called) ← workAll rest (S windex) belt;
      Some (w :: rest, belt, windex :: called)
  end.

(** [double], and the promotion of a [float] to it. *)
Definition prec64 : Z := 53.
Definition emax64 : Z := 1024.

Definition double_of_Z (n : Z) : spec_float := binary_normalize prec64 emax64 n 0 false.

Definition double_of_float (x : probability) : spec_float :=
  match x with
  | S754_finite s m e => binary_normalize prec64 emax64 (cond_Zopp s (Zpos m)) e s
  | _ => x
  end.

(** [#define ONE_THIRD ( 1.0 / 3.0 )] and [#define TWO_THIRDS ( 2.0 / 3.0 )] *)
Definition ONE_THIRD : spec_float :=
  SFdiv prec64 emax64 (double_of_Z 1) (double_of_Z 3).
Definition TWO_THIRDS : spec_float :=
  SFdiv prec64 emax64 (double_of_Z 2) (double_of_Z 3).

(** [void placeNewItem ( char* belt )] for the draw [r] of [getRandomNumber]:
    [r >= 0] is a comparison of [float]s, the other three of [double]s. *)
Definition placeNewItem (r : probability) (belt : list Z) : option (list Z) :=
  if SFleb (float_of_Z 0) r && SFltb (double_of_float r) ONE_THIRD then
    wr belt INPUT_SLOT COMPONENT_A
  else if SFleb ONE_THIRD (double_of_float r) && SFleb (double_of_float r) TWO_THIRDS then
    wr belt INPUT_SLOT COMPONENT_B
  else
    wr belt INPUT_SLOT COMPONENT_NULL.

Definition ITERATIONS : nat := 100.

(** What [main] holds between two iterations: the belt, the workers, the
    four counters and the number of calls made to [getRandomNumber]. *)
Record state : Type := mkstate {
  belt : list Z;
  workers : list worker;
  counts : tally;
  drawn : nat
}.

(** The body of the [for] loop of [main]. *)
Definition iteration (rng : random_source) (st : state) : option state :=
  out ← rd (belt st) OUTPUT_SLOT;
  let t := countOutput out (counts st) in
  belt ← moveBelt (Z.to_nat OUTPUT_SLOT) (belt st);
  belt ← placeNewItem (rng (drawn st)) belt;
  '(ws, belt, _) ← workAll (workers st) 0 belt;
  Some (mkstate belt ws t (S (drawn st))).

Fixpoint iterations (rng : random_source) (n : nat) (st : state) : option state :=
  match n with
  | O => Some st
  | S k => st ← iteration rng st; iterations rng k st
  end.

(** The state [main] starts from: belt and workers cleared by [bzero], the
    six workers in pairs at slots 1, 2 and 3. *)
Definition initial : state :=
  mkstate [0; 0; 0; 0; 0]
          (map (fun p => mkworker p 0 0 0) [1; 1; 2; 2; 3; 3])
          (mktally 0 0 0 0) 0.


(** A raw component, and the states a worker is in between two calls:
    idle with at most the right hand filled (by a raw component or by the
    finished P), or building over one A and one B. *)
Definition raw (c : Z) : Prop := c = COMPONENT_A \/ c = COMPONENT_B.

Definition sane (w : worker) : Prop :=
  (buildTimeLeft w = 0 /\ left w = COMPONENT_NULL
   /\ (right w = COMPONENT_NULL \/ raw (right w) \/ right w = COMPONENT_P))
  \/ (1 <= buildTimeLeft w <= TIME_TO_BUILD_COMPONENT_P
      /\ raw (left w) /\ raw (right w) /\ left w <> right w).

(** A belt of [main]: five cells, each one of the four component values. *)
Definition beltOk (belt : list Z) : Prop :=
  length belt = 5%nat /\ Forall (fun c => 0 <= c <= 3) belt.

Definition stateOk (st : state) : Prop :=
  beltOk (belt st)
  /\ Forall (fun w => 0 <= pos w <= OUTPUT_SLOT /\ sane w) (workers st).

Definition counted (t : tally) : Z := compA t + compB t + compP t + compNull t.

Definition tallyOk (t : tally) : Prop :=
  0 <= compA t /\ 0 <= compB t /\ 0 <= compP t /\ 0 <= compNull t.

(** The component that [placeNewItem] writes for the draw [r]. *)
Definition chosen (r : probability) : Z :=
  if SFleb (float_of_Z 0) r && SFltb (double_of_float r) ONE_THIRD then COMPONENT_A
  else if SFleb ONE_THIRD (double_of_float r) && SFleb (double_of_float r) TWO_THIRDS
       then COMPONENT_B
       else COMPONENT_NULL.

(** Calls of [doWork] on one worker, one for each belt of the list, and the
    belts as the calls leave them. *)
Fixpoint serve (w : worker) (belts : list (list Z)) : option (worker * list (list Z)) :=
  match belts with
  | [] => Some (w, [])
  | b :: rest =>
      '(w, b) ← doWork w b;
      '(w, rest) ← serve w rest;
      Some (w, b :: rest)
  end.

(** How many components [c] a cell or a hand stands for: the finished P is
    made of one A and one B. *)
Definition worth (c x : Z) : Z :=
  if (x =? c) || (x =? COMPONENT_P) then 1 else 0.

Definition total (l : list Z) : Z := foldr Z.add 0 l.

Definition onBelt (c : Z) (belt : list Z) : Z := total (worth c <$> belt).

Definition inHands (c : Z) (w : worker) : Z := worth c (left w) + worth c (right w).

(** The components [c] that came off the belt, raw or inside a finished P. *)
Definition cameOff (c : Z) (t : tally) : Z :=
  (if c =? COMPONENT_A then compA t else if c =? COMPONENT_B then compB t else 0)
  + compP t.



End Simple.

(** ** The registry of item factories: notions *)

Module Registry.
Import Core.

Definition weightOf (h : store) (a : addr) : Z := from_option weight 0 (h !! a).

(** The sum of the weights down a chain, as an integer. *)
Definition totalWeight (h : store) (chain : list addr) : Z :=
  foldr (fun a acc => weightOf h a + acc) 0 chain.

(** The registry of item factories is sound: every object is in the chain
    once and is live, and the running total is the sum of the weights in
    [u64int]. *)
Definition consistent (h : store) (b : Belt) : Prop :=
  NoDup (itemsToMake b)
  /\ (forall a, a ∈ itemsToMake b -> is_Some (h !! a))
  /\ totalItemWeighting b = u64 (totalWeight h (itemsToMake b)).





(** Registrations in program order, each an object and its weighting. *)
Fixpoint registerAll (kinds : list (addr * Z)) (h : store) (b : Belt)
  : option (store * Belt) :=
  match kinds with
  | [] => Some (h, b)
  | (a, w) :: rest =>
      '(h, b) ← addItemFactory a w h b;
      registerAll rest h b
  end.

End Registry.

(** ** The configuration built by [main] of the C++ program *)

Module Reference.
Import Core.

Definition itemA : addr := 0%nat.
Definition itemB : addr := 1%nat.
Definition itemP : addr := 2%nat.
Definition nullItem : addr := 3%nat.

(** The four [new ItemType] objects, and [componentsNeededForP].  The
    fields that the constructors leave indeterminate are 0.0 and NULL here. *)
Definition objects : store :=
  <[itemA := ItemType_named 65 fzero None]>
  (<[itemB := ItemType_named 66 fzero None]>
  (<[itemP := setComponentsRequired (Some [itemA; itemB]) (ItemType_named 80 fzero None)]>
  (<[nullItem := ItemType_null fzero]> ∅))).

(** [new Belt(5)] and the three item factories with weighting 50. *)
Definition factories : option (store * Belt) :=
  '(h, b) ← addItemFactory itemA 50 objects (Belt_new 5 None (fun _ => None));
  '(h, b) ← addItemFactory itemB 50 h b;
  addItemFactory nullItem 50 h b.

(** The finished item and the six workers, in pairs at slots 1, 2 and 3, with
    the default weighting. *)
Definition staffed (b : Belt) : Belt :=
  addWorker Worker_new 3 50
    (addWorker Worker_new 3 50
      (addWorker Worker_new 2 50
        (addWorker Worker_new 2 50
          (addWorker Worker_new 1 50
            (addWorker Worker_new 1 50 (addFinishedItem itemP b)))))).

Definition setup : option Sim :=
  '(h, b) ← factories; Some (mkSim h (staffed b) 0 []).

(** The draw 0.5. *)
Definition half : probability := fdiv (float_of_Z 1) (float_of_Z 2).

(** An idle worker at slot 1 holding A in its left hand, and the same
    worker holding A and B with the countdown at [ASSEMBLE_TIME]. *)
Definition holdingA : Worker :=
  mkWorker 1 50 fzero false 0 (Some itemA) None.

Definition startedAssembling : Worker :=
  mkWorker 1 50 fzero true ASSEMBLE_TIME (Some itemA) (Some itemB).




(** A worker at slot 1 holding A and B with one cycle of assembly left. *)
Definition aboutToFinish : Worker :=
  mkWorker 1 50 fzero true 1 (Some itemA) (Some itemB).

(** The empty belt of [main] with A put into the entry slot and B into the
    exit slot. *)
Definition loadedBelt : Belt :=
  default (Belt_new 5 None (fun _ => None))
          (b ← setSlot (Some itemA) 0 (Belt_new 5 None (fun _ => None));
           setSlot (Some itemB) 4 b).

Definition start : Sim :=
  default (mkSim objects (Belt_new 5 None (fun _ => None)) 0 []) setup.

(** A second configuration: twelve item types of weighting 1 each, a
    finished product made of the first two, and one worker at slot 1.  Each
    type gets the probability 1/12 rounded to binary32, and the twelve add
    up to less than 1.0. *)
Definition twelfthProduct : addr := 12%nat.

Definition twelveObjects : store :=
  <[twelfthProduct := setComponentsRequired (Some [0%nat; 1%nat])
                        (ItemType_named 80 fzero None)]>
  (list_to_map
     (map (fun k => (k, ItemType_named (97 + Z.of_nat k) fzero None)) (seq 0 12))).

Definition twelveKinds : list (addr * Z) := map (fun k => (k, 1)) (seq 0 12).

Definition twelveStart : Sim :=
  match Registry.registerAll twelveKinds twelveObjects (Belt_new 5 None (fun _ => None)) with
  | Some (h, b) =>
      mkSim h (addWorker Worker_new 1 50 (addFinishedItem twelfthProduct b)) 0 []
  | None => mkSim twelveObjects (Belt_new 5 None (fun _ => None)) 0 []
  end.

(** Draws of one half, except the third call of [getRandomNumber], which
    returns 1.0 ([random() = RAND_MAX]). *)
Definition thirdDrawIsOne : random_source :=
  fun k => if Nat.eqb k 2 then fone else half.

Definition afterOneStep : Sim := snd (runSim thirdDrawIsOne 1 twelveStart).

Definition afterFirstStep : Sim := snd (step (fun _ => half) start).

(** The configuration of [main] before any worker is added. *)
Definition unstaffed : Sim :=
  default start ('(h, b) ← factories; Some (mkSim h (addFinishedItem itemP b) 0 [])).

(** The configuration of [main] with A put into the entry slot and B into the
    exit slot, and the states after one and after three steps from it. *)
Definition loaded : Sim :=
  default start (b ← setSlot (Some itemA) 0 (belt start);
                 b ← setSlot (Some itemB) 4 b;
                 Some (mkSim (heap start) b 0 [])).

Definition loadedAfterOne : Sim := snd (step (fun _ => half) loaded).

Definition loadedAfterThree : Sim := snd (runSim (fun _ => half) 3 loaded).

End Reference.

(** ** Notions used in the statements *)

Module Life.
Import Core.

(** Both hands hold something. *)
Definition handsFull (w : Worker) : Prop :=
  is_Some (leftHand w) ∧ is_Some (rightHand w).

(** What [doWork] reads of an item type: its id and its recipe.  Two stores
    hold the same kinds when they agree on these at every address; counting
    items off the belt changes nothing else. *)
Definition kind (it : ItemType) : Z * option (list addr) :=
  (id it, componentsRequired it).

Definition sameKinds (h h' : store) : Prop :=
  forall a, kind <$> h !! a = kind <$> h' !! a.

(** The life of one worker for a fixed finished product: calls of [doWork]
    on whatever its slot offers, each under a store with the kinds of [h],
    and the resets of [doneWork] that [advanceBelt] makes between them. *)
Inductive evolves (h : store) (fin : ptr) : Worker -> Worker -> Prop :=
  | evolves_refl w : evolves h fin w w
  | evolves_work w w1 w2 h1 it out :
      sameKinds h h1 ->
      doWork h1 w it fin = Some (w1, out) ->
      evolves h fin w1 w2 ->
      evolves h fin w w2
  | evolves_reset w w2 :
      evolves h fin (setHasDoneWork false w) w2 ->
      evolves h fin w w2.

(** A worker counts down only over hands that the finished product accepts. *)
Definition countsOverMatch (h : store) (fin : ptr) (w : Worker) : Prop :=
  0 < amAssembling w ->
  exists l r ft, leftHand w = Some l /\ rightHand w = Some r /\ fin = Some ft
                 /\ assemble h ft [l; r] = Some (Some ft).

End Life.

Module Roster.
Import Core.

(** A pointer to an object of the store. *)
Definition live (h : store) (a : addr) : Prop := is_Some (h !! a).

(** The sum of the weights of the workers of a chain. *)
Definition totalWorkerWeight (chain : list Worker) : Z :=
  foldr (fun wk acc => workerWeight wk + acc) 0 chain.

(** The running total of the worker weights is their sum in [u64int]. *)
Definition consistent (b : Belt) : Prop :=
  totalWorkerWeighting b = u64 (totalWorkerWeight (workers b)).

(** A worker is served the items of a list, one call of [doWork] each; the
    result is the worker at the end and what each call left in the slot. *)
Fixpoint serve (h : store) (fin : ptr) (w : Worker) (offers : list ptr)
  : option (Worker * list ptr) :=
  match offers with
  | [] => Some (w, [])
  | it :: rest =>
      '(w, out) ← doWork h w it fin;
      '(w, outs) ← serve h fin w rest;
      Some (w, out :: outs)
  end.


End Roster.


(** ** Stores with the same kinds *)

Section SameKinds.
Import Core Life.

Variables h h' : store.
Hypothesis Hsame : sameKinds h h'.

Lemma getId_sameKinds (a : addr) : getId h' a = getId h a.
Proof.
  unfold getId. pose proof (Hsame a) as Ha.
  destruct (h !! a), (h' !! a); cbn in *; try discriminate; [|reflexivity].
  now injection Ha as -> _.
Qed.

Lemma componentFound_sameKinds (required : addr) (available : list addr) :
  componentFound h' required available = componentFound h required available.
Proof.
  induction available as [|y ys IH]; [reflexivity|].
  cbn [componentFound]. rewrite !getId_sameKinds, IH. reflexivity.
Qed.

Lemma allComponentsFound_sameKinds (required available : list addr) :
  allComponentsFound h' required available = allComponentsFound h required available.
Proof.
  induction required as [|x xs IH]; [reflexivity|].
  cbn [allComponentsFound]. rewrite componentFound_sameKinds, IH. reflexivity.
Qed.

Lemma assemble_sameKinds (this : addr) (available : list addr) :
  assemble h' this available = assemble h this available.
Proof.
  unfold assemble. pose proof (Hsame this) as Hthis.
  destruct (h !! this) as [me|], (h' !! this) as [me'|]; cbn in *;
    try discriminate; [|reflexivity].
  injection Hthis as _ Hreq. rewrite <- Hreq.
  destruct (componentsRequired me); [|reflexivity].
  now rewrite allComponentsFound_sameKinds.
Qed.

Lemma takeFromSlot_sameKinds (w : Worker) (it out : ptr) :
  takeFromSlot h' w it out = takeFromSlot h w it out.
Proof.
  unfold takeFromSlot, slotIsEmpty.
  destruct it as [a|]; [now rewrite getId_sameKinds | reflexivity].
Qed.

Lemma startAssembling_sameKinds (w : Worker) (fin : ptr) :
  startAssembling h' w fin = startAssembling h w fin.
Proof.
  unfold startAssembling.
  destruct (leftHand w), (rightHand w), fin; try reflexivity.
  cbn. now rewrite assemble_sameKinds.
Qed.

Lemma doWork_sameKinds (w : Worker) (it fin : ptr) :
  doWork h' w it fin = doWork h w it fin.
Proof.
  unfold doWork.
  destruct (0 <? amAssembling (setHasDoneWork true w)); [reflexivity|].
  rewrite takeFromSlot_sameKinds.
  destruct (takeFromSlot h (setHasDoneWork true w) it it) as [[w1 out]|];
    [cbn|reflexivity].
  now rewrite startAssembling_sameKinds.
Qed.

End SameKinds.

Section CountingKeepsKinds.
Import Core Life.

(** Counting an item off the belt leaves the kinds as they are. *)
Lemma incrementNumberCollected_sameKinds (h h' : store) (a : addr) :
  update incrementNumberCollected a h = Some h' -> sameKinds h h'.
Proof.
  unfold update. destruct (h !! a) as [it|] eqn:Hit; [cbn|discriminate].
  intros [= <-] x. destruct (decide (x = a)) as [->|Hne].
  - now rewrite lookup_insert_eq, Hit.
  - now rewrite lookup_insert_ne by congruence.
Qed.

Lemma sameKinds_refl (h : store) : sameKinds h h.
Proof. intros a. reflexivity. Qed.

Lemma sameKinds_trans (h1 h2 h3 : store) :
  sameKinds h1 h2 -> sameKinds h2 h3 -> sameKinds h1 h3.
Proof. intros H12 H23 a. now rewrite H12. Qed.

Lemma countLoop_sameKinds (i : nat) (bound : Z) (cells : list ptr) :
  forall h log h' log',
    countLoop i bound cells h log = Some (h', log') -> sameKinds h h'.
Proof.
  induction i as [|j IH]; intros h log h' log'; cbn [countLoop].
  - destruct (Z.of_nat 0 >? bound); [|intros [= <- _]; apply sameKinds_refl].
    destruct (readCell cells (Z.of_nat 0)) as [[a|]|]; cbn; try discriminate.
    + destruct (update incrementNumberCollected a h) as [h1|] eqn:Hup;
        [cbn|discriminate].
      destruct (u32 (-1) >? bound); [discriminate|].
      intros [= <- _]. now apply incrementNumberCollected_sameKinds in Hup.
    + destruct (u32 (-1) >? bound); [discriminate|].
      intros [= <- _]. apply sameKinds_refl.
  - destruct (Z.of_nat (S j) >? bound); [|intros [= <- _]; apply sameKinds_refl].
    destruct (readCell cells (Z.of_nat (S j))) as [[a|]|]; cbn; try discriminate.
    + destruct (update incrementNumberCollected a h) as [h1|] eqn:Hup;
        [cbn|discriminate].
      intros Hrest. apply IH in Hrest.
      apply incrementNumberCollected_sameKinds in Hup.
      now apply sameKinds_trans with h1.
    + apply IH.
Qed.

Lemma evolves_trans (h : store) (fin : ptr) (w1 w2 w3 : Worker) :
  evolves h fin w1 w2 -> evolves h fin w2 w3 -> evolves h fin w1 w3.
Proof.
  induction 1 as [w | w wa wb h1 it out Hsame Hrun _ IH | w wb _ IH]; intros Hlater.
  - exact Hlater.
  - eapply evolves_work; eauto.
  - apply evolves_reset. now apply IH.
Qed.

Lemma evolves_sameKinds (h0 h : store) (fin : ptr) (w w' : Worker) :
  sameKinds h0 h -> evolves h fin w w' -> evolves h0 fin w w'.
Proof.
  intros H0. induction 1 as [w | w wa wb h1 it out Hsame Hrun _ IH | w wb _ IH].
  - apply evolves_refl.
  - eapply evolves_work; [|exact Hrun|exact IH].
    now apply sameKinds_trans with h.
  - now apply evolves_reset.
Qed.

End CountingKeepsKinds.

(** ** The worker of the C++ core *)

Section WorkerFacts.
Import Core Life.

Variable h : store.
Variable fin : ptr.

Lemma doWork_counting (w : Worker) (it : ptr) :
  0 < amAssembling w ->
  doWork h w it fin =
    Some (setAmAssembling (amAssembling w - 1) (setHasDoneWork true w),
          if amAssembling w - 1 =? 0 then fin else it).
Proof.
  intros Hpos. unfold doWork. cbn [amAssembling setHasDoneWork].
  destruct (Z.ltb_spec 0 (amAssembling w)); [reflexivity | lia].
Qed.

Lemma doWork_idle (w : Worker) (it : ptr) :
  amAssembling w <= 0 ->
  doWork h w it fin =
    ('(w1, out) ← takeFromSlot h (setHasDoneWork true w) it it;
     w2 ← startAssembling h w1 fin;
     Some (w2, out)).
Proof.
  intros Hle. unfold doWork. cbn [amAssembling setHasDoneWork].
  destruct (Z.ltb_spec 0 (amAssembling w)); [lia | reflexivity].
Qed.

Lemma fillHands_full (w : Worker) (it out : ptr) :
  handsFull w -> fillHands w it out = (w, out).
Proof.
  intros [[l Hl] [r Hr]]. unfold fillHands. rewrite Hl. now rewrite Hr.
Qed.

Lemma fillHands_amAssembling (w : Worker) (it out : ptr) :
  amAssembling (fst (fillHands w it out)) = amAssembling w.
Proof.
  destruct w as [p x q d a [l|] [r|]]; unfold fillHands; cbn;
    repeat (case_bool_decide; cbn); reflexivity.
Qed.

(** What the hand tests do: nothing, or the item goes into the left hand,
    which was empty, the right hand not holding that item, or into the right
    hand, which was empty, the left hand holding another item.  A pickup
    empties the slot. *)
Lemma fillHands_cases (w : Worker) (it out : ptr) :
  fillHands w it out = (w, out)
  \/ (leftHand w = None /\ it <> rightHand w
      /\ fillHands w it out = (setLeftHand it w, None))
  \/ (is_Some (leftHand w) /\ rightHand w = None /\ it <> leftHand w
      /\ fillHands w it out = (setRightHand it w, None)).
Proof.
  destruct w as [p x q d a [l|] [r|]]; unfold fillHands; cbn.
  - now left.
  - case_bool_decide as Hne; [|now left].
    right. right. repeat split; eauto.
  - case_bool_decide as Hne; [|now left]. cbn.
    right. left. repeat split; auto.
  - case_bool_decide as Hne; cbn.
    + rewrite bool_decide_eq_false_2 by (intros H; now apply H).
      right. left. repeat split; auto.
    + rewrite bool_decide_eq_false_2 by (intros H; now apply H). now left.
Qed.

Lemma fillHands_hands (w : Worker) (it out : ptr) (l r : addr) :
  leftHand w = Some l -> rightHand w = Some r ->
  let w1 := fst (fillHands w it out) in
  leftHand w1 = Some l /\ rightHand w1 = Some r.
Proof.
  intros Hl Hr. rewrite fillHands_full; [now split | split; eauto].
Qed.

Lemma takeFromSlot_full (w w1 : Worker) (it out out1 : ptr) :
  handsFull w -> takeFromSlot h w it out = Some (w1, out1) -> w1 = w /\ out1 = out.
Proof.
  intros Hfull. unfold takeFromSlot.
  destruct (slotIsEmpty h it) as [[|]|]; cbn; try discriminate.
  - now intros [= <- <-].
  - rewrite fillHands_full by assumption. now intros [= <- <-].
Qed.

Lemma takeFromSlot_amAssembling (w w1 : Worker) (it out out1 : ptr) :
  takeFromSlot h w it out = Some (w1, out1) -> amAssembling w1 = amAssembling w.
Proof.
  unfold takeFromSlot.
  destruct (slotIsEmpty h it) as [[|]|]; cbn; try discriminate.
  - now intros [= <- _].
  - intros Heq. injection Heq as Heq. apply (f_equal fst) in Heq. cbn [fst] in Heq.
    subst w1. apply fillHands_amAssembling.
Qed.

Lemma startAssembling_hands (w w' : Worker) :
  startAssembling h w fin = Some w' ->
  leftHand w' = leftHand w /\ rightHand w' = rightHand w
  /\ (amAssembling w' = amAssembling w \/ amAssembling w' = ASSEMBLE_TIME).
Proof.
  unfold startAssembling.
  destruct (leftHand w) as [l|] eqn:Hl, (rightHand w) as [r|] eqn:Hr;
    try (intros [= <-]; rewrite ?Hl, ?Hr; auto).
  destruct fin as [ft|]; cbn; [|discriminate].
  destruct (assemble h ft [l; r]) as [[made|]|]; cbn; intros [= <-]; cbn; auto.
Qed.

Lemma startAssembling_match (w : Worker) (l r ft : addr) :
  leftHand w = Some l -> rightHand w = Some r -> fin = Some ft ->
  assemble h ft [l; r] = Some (Some ft) ->
  startAssembling h w fin = Some (setAmAssembling ASSEMBLE_TIME w).
Proof.
  intros Hl Hr -> Hm. unfold startAssembling. rewrite Hl, Hr. cbn. now rewrite Hm.
Qed.

(** No call of [doWork] changes a hand of a worker whose hands are full. *)
Lemma doWork_full_hands (w w' : Worker) (it out : ptr) :
  handsFull w ->
  doWork h w it fin = Some (w', out) ->
  leftHand w' = leftHand w /\ rightHand w' = rightHand w.
Proof.
  intros Hfull Hrun.
  destruct (Z.ltb_spec 0 (amAssembling w)) as [Hpos|Hle].
  - rewrite doWork_counting in Hrun by assumption. now injection Hrun as <- _.
  - rewrite doWork_idle in Hrun by assumption.
    destruct (takeFromSlot h (setHasDoneWork true w) it it) as [[w1 o1]|] eqn:Ht;
      [cbn in Hrun|discriminate].
    apply takeFromSlot_full in Ht as [-> ->]; [|exact Hfull].
    destruct (startAssembling h (setHasDoneWork true w) fin) as [w2|] eqn:Hs;
      [cbn in Hrun|discriminate].
    injection Hrun as <- _.
    apply startAssembling_hands in Hs. cbn in Hs. tauto.
Qed.

Lemma evolves_full_hands (w w' : Worker) :
  evolves h fin w w' -> handsFull w ->
  leftHand w' = leftHand w /\ rightHand w' = rightHand w.
Proof.
  induction 1 as [w | w w1 w2 h1 it out Hsame Hrun _ IH | w w2 _ IH]; intros Hfull.
  - now split.
  - rewrite (doWork_sameKinds h h1 Hsame) in Hrun.
    destruct (doWork_full_hands _ _ _ _ Hfull Hrun) as [Hl Hr].
    destruct IH as [Hl2 Hr2].
    + unfold handsFull. now rewrite Hl, Hr.
    + split; congruence.
  - apply IH. exact Hfull.
Qed.

(** [countsOverMatch] holds along the life of a worker. *)
Lemma doWork_countsOverMatch (w w' : Worker) (it out : ptr) :
  countsOverMatch h fin w ->
  doWork h w it fin = Some (w', out) ->
  countsOverMatch h fin w'.
Proof.
  intros Hinv Hrun.
  destruct (Z.ltb_spec 0 (amAssembling w)) as [Hpos|Hle].
  - rewrite doWork_counting in Hrun by assumption. injection Hrun as <- _.
    intros _. cbn. exact (Hinv Hpos).
  - rewrite doWork_idle in Hrun by assumption.
    destruct (takeFromSlot h (setHasDoneWork true w) it it) as [[w1 o1]|] eqn:Ht;
      [cbn in Hrun|discriminate].
    apply takeFromSlot_amAssembling in Ht. cbn in Ht.
    unfold startAssembling in Hrun.
    destruct (leftHand w1) as [l|] eqn:Hl, (rightHand w1) as [r|] eqn:Hr;
      cbn in Hrun; try (injection Hrun as <- _; intros Hpos; lia).
    destruct fin as [ft|] eqn:Hfin; [cbn in Hrun|discriminate].
    destruct (assemble h ft [l; r]) as [[made|]|] eqn:Hm; cbn in Hrun;
      [ | injection Hrun as <- _; intros Hpos; lia | discriminate].
    injection Hrun as <- _. intros _. exists l, r, ft. cbn.
    repeat split; try assumption.
    revert Hm. unfold assemble. destruct (h !! ft) as [me|]; [cbn|discriminate].
    destruct (componentsRequired me) as [required|]; [|discriminate].
    destruct (allComponentsFound h required [l; r]) as [[|]|]; cbn; congruence.
Qed.

Lemma evolves_countsOverMatch (w w' : Worker) :
  evolves h fin w w' -> countsOverMatch h fin w -> countsOverMatch h fin w'.
Proof.
  induction 1 as [w | w w1 w2 h1 it out Hsame Hrun _ IH | w w2 _ IH]; intros Hinv.
  - exact Hinv.
  - rewrite (doWork_sameKinds h h1 Hsame) in Hrun.
    apply IH. eapply doWork_countsOverMatch; eassumption.
  - apply IH. exact Hinv.
Qed.

End WorkerFacts.

(** ** The worker of [simple.c] *)

Section SimpleWorkerFacts.
Import Simple.

(** A worker holding finished P with no build running places it into an
    empty slot and clears both hands, and otherwise keeps it and leaves the
    belt alone. *)
Lemma simple_doWork_pending (w : worker) (belt : list Z) (slot : Z) :
  buildTimeLeft w = 0 -> right w = COMPONENT_P ->
  rd belt (pos w) = Some slot ->
  (slot = COMPONENT_NULL ->
     exists belt', wr belt (pos w) COMPONENT_P = Some belt'
       /\ doWork w belt = Some (mkworker (pos w) COMPONENT_NULL COMPONENT_NULL 0, belt'))
  /\ (slot <> COMPONENT_NULL -> doWork w belt = Some (w, belt)).
Proof.
  destruct w as [p l r b]. cbn. intros -> -> Hslot.
  unfold doWork. cbn. rewrite Hslot. cbn. split.
  - intros ->. cbn.
    unfold wr. unfold rd in Hslot.
    destruct (Z.ltb_spec p 0) as [|Hge]; [discriminate|].
    apply lookup_lt_Some in Hslot.
    destruct (Z.leb_spec 0 p); [|lia].
    destruct (Z.ltb_spec p (Z.of_nat (length belt))); [|lia].
    cbn. eexists. split; reflexivity.
  - intros Hne. destruct (Z.eqb_spec slot COMPONENT_NULL); [contradiction|reflexivity].
Qed.

(** While a build is running, an occupied slot is left as it is. *)
Lemma simple_doWork_assembling (w : worker) (belt : list Z) (slot : Z) :
  0 < buildTimeLeft w ->
  rd belt (pos w) = Some slot -> slot <> COMPONENT_NULL ->
  exists w', doWork w belt = Some (w', belt)
             /\ buildTimeLeft w' = buildTimeLeft w - 1.
Proof.
  destruct w as [p l r b]. cbn. intros Hpos Hslot Hne. unfold doWork. cbn.
  destruct (Z.ltb_spec 0 b); [|lia].
  destruct (Z.eqb_spec (b - 1) 0) as [Hz|Hnz].
  - cbn. rewrite Hslot. cbn.
    destruct (Z.eqb_spec slot COMPONENT_NULL); [contradiction|].
    eexists. split; [reflexivity|]. reflexivity.
  - eexists. split; reflexivity.
Qed.

(** An idle worker changes the belt only by taking a raw component that its
    right hand does not hold already, and the slot is empty afterwards. *)
Lemma simple_doWork_idle (w w' : worker) (belt belt' : list Z) (slot : Z) :
  buildTimeLeft w = 0 -> right w <> COMPONENT_P ->
  rd belt (pos w) = Some slot ->
  doWork w belt = Some (w', belt') ->
  (w' = w /\ belt' = belt)
  \/ (slot <> COMPONENT_NULL /\ slot <> COMPONENT_P /\ slot <> right w
      /\ wr belt (pos w) COMPONENT_NULL = Some belt'
      /\ (right w' = slot \/ left w' = slot)).
Proof.
  destruct w as [p l r b]. cbn. intros -> Hr Hslot. unfold doWork. cbn.
  destruct (Z.eqb_spec r COMPONENT_P); [contradiction|].
  rewrite Hslot. cbn.
  destruct (Z.eqb_spec slot COMPONENT_NULL) as [|Hn]; cbn; [intros [= <- <-]; now left|].
  destruct (Z.eqb_spec slot COMPONENT_P) as [|Hp]; cbn; [intros [= <- <-]; now left|].
  destruct (Z.eqb_spec r COMPONENT_NULL) as [Hrn|Hrn].
  - destruct (wr belt p COMPONENT_NULL) as [b1|]; cbn; [|discriminate].
    intros [= <- <-]. right. cbn. repeat split; try assumption; try congruence. now left.
  - destruct (Z.eqb_spec r slot) as [|Hd]; cbn; [intros [= <- <-]; now left|].
    destruct (wr belt p COMPONENT_NULL) as [b1|]; cbn; [|discriminate].
    intros [= <- <-]. right. cbn. repeat split; try assumption; try congruence. now right.
Qed.

(** The belt loop of [main] moves slots 0..3 one slot on; slot 0 keeps its
    old contents until [placeNewItem] writes it. *)
Lemma simple_moveBelt (c0 c1 c2 c3 c4 : Z) :
  moveBelt (Z.to_nat OUTPUT_SLOT) [c0; c1; c2; c3; c4] = Some [c0; c0; c1; c2; c3].
Proof. reflexivity. Qed.

(** Each of the four values that come off the belt raises its own counter,
    once. *)
Lemma simple_countOutput (t : tally) :
  countOutput COMPONENT_A t = mktally (u64 (compA t + 1)) (compB t) (compP t) (compNull t)
  /\ countOutput COMPONENT_B t = mktally (compA t) (u64 (compB t + 1)) (compP t) (compNull t)
  /\ countOutput COMPONENT_P t = mktally (compA t) (compB t) (u64 (compP t + 1)) (compNull t)
  /\ countOutput COMPONENT_NULL t = mktally (compA t) (compB t) (compP t) (u64 (compNull t + 1)).
Proof. destruct t. repeat split. Qed.

(** The round-robin loop of [main] calls [doWork] once on every worker, in
    the order of the array. *)
Lemma simple_workAll_calls (workers : list worker) :
  forall windex belt workers' belt' called,
    workAll workers windex belt = Some (workers', belt', called) ->
    called = seq windex (length workers).
Proof.
  induction workers as [|w rest IH]; intros windex belt workers' belt' called.
  - now intros [= _ _ <-].
  - cbn [workAll].
    destruct (doWork w belt) as [[w1 belt1]|]; [cbn|discriminate].
    destruct (workAll rest (S windex) belt1) as [[[rest1 belt2] called1]|] eqn:Hrest;
      [cbn|discriminate].
    intros [= _ _ <-]. apply IH in Hrest as ->. reflexivity.
Qed.

End SimpleWorkerFacts.

(** ** Claims about the worker state machine *)

Section WorkerClaims.
Import Core Life.

(** C10: in the C++ core no call of [doWork] empties a hand.  Along the life
    of a worker that started idle, once both hands are full they hold the
    same two items after every later activation; and when a countdown ends
    (the finished product is returned), the very next activation takes
    nothing from its slot and sets the countdown to [ASSEMBLE_TIME] again
    over the same hands. *)
Theorem full_hands_are_kept (h : store) (fin : ptr) (w0 w : Worker) :
  amAssembling w0 = 0 ->
  evolves h fin w0 w ->
  (handsFull w ->
   forall w', evolves h fin w w' ->
     leftHand w' = leftHand w /\ rightHand w' = rightHand w /\ handsFull w')
  /\ (amAssembling w = 1 ->
      forall h1 h2 it1 it2,
      sameKinds h h1 -> sameKinds h h2 -> is_Some (slotIsEmpty h2 it2) ->
      exists w1 w2,
        doWork h1 w it1 fin = Some (w1, fin) /\ amAssembling w1 = 0
        /\ doWork h2 w1 it2 fin = Some (w2, it2)
        /\ amAssembling w2 = ASSEMBLE_TIME
        /\ leftHand w2 = leftHand w /\ rightHand w2 = rightHand w
        /\ handsFull w2).
Proof.
  intros Hidle Hlife. split.
  - intros Hfull w' Hlater.
    destruct (evolves_full_hands h fin w w' Hlater Hfull) as [Hl Hr].
    repeat split; try assumption; unfold handsFull in *; rewrite ?Hl, ?Hr; tauto.
  - intros Hone h1 h2 it1 it2 Hsame1 Hsame2 [empty Hempty].
    assert (Hinv : countsOverMatch h fin w).
    { apply (evolves_countsOverMatch h fin w0 w Hlife). intros Hpos. lia. }
    destruct Hinv as (l & r & ft & Hl & Hr & Hfin & Hmatch); [lia|].
    rewrite <- (assemble_sameKinds h h2 Hsame2) in Hmatch.
    set (w1 := setAmAssembling 0 (setHasDoneWork true w)).
    exists w1, (setAmAssembling ASSEMBLE_TIME (setHasDoneWork true w1)).
    assert (Hfull1 : handsFull (setHasDoneWork true w1)).
    { split; cbn; [rewrite Hl | rewrite Hr]; eauto. }
    repeat split.
    + rewrite doWork_counting by lia. rewrite Hone. reflexivity.
    + rewrite doWork_idle by (cbn; lia).
      unfold takeFromSlot. rewrite Hempty. cbn.
      replace (if empty then (setHasDoneWork true w1, it2)
               else fillHands (setHasDoneWork true w1) it2 it2)
        with (setHasDoneWork true w1, it2)
        by (destruct empty; [reflexivity | now rewrite fillHands_full]).
      rewrite (startAssembling_match h2 fin _ l r ft); auto.
    + cbn. rewrite Hl. eauto.
    + cbn. rewrite Hr. eauto.
Qed.

Lemma full_hands_are_kept_witness :
  exists w1 w2,
    doWork Reference.objects Reference.aboutToFinish None (Some Reference.itemP)
      = Some (w1, Some Reference.itemP)
    /\ amAssembling w1 = 0
    /\ doWork Reference.objects w1 None (Some Reference.itemP) = Some (w2, None)
    /\ amAssembling w2 = ASSEMBLE_TIME
    /\ leftHand w2 = leftHand Reference.aboutToFinish
    /\ rightHand w2 = rightHand Reference.aboutToFinish
    /\ handsFull w2.
Proof.
  apply (full_hands_are_kept Reference.objects (Some Reference.itemP)
           (mkWorker 1 50 fzero false 0 None None) Reference.aboutToFinish).
  - reflexivity.
  - eapply evolves_work with (h1 := Reference.objects) (it := Some Reference.itemA);
      [intros a; reflexivity | vm_compute; reflexivity |].
    eapply evolves_work with (h1 := Reference.objects) (it := Some Reference.itemB);
      [intros a; reflexivity | vm_compute; reflexivity |].
    eapply evolves_work with (h1 := Reference.objects) (it := None);
      [intros a; reflexivity | vm_compute; reflexivity |].
    eapply evolves_work with (h1 := Reference.objects) (it := None);
      [intros a; reflexivity | vm_compute; reflexivity |].
    eapply evolves_work with (h1 := Reference.objects) (it := None);
      [intros a; reflexivity | vm_compute; reflexivity |].
    apply evolves_refl.
  - reflexivity.
  - intros a. reflexivity.
  - intros a. reflexivity.
  - exists true. reflexivity.
Defined.

(** C3 (as stated, refuted): a worker of the C++ core holding A is offered
    B; its hands then satisfy the recipe of P and the countdown starts, but
    the hands are not cleared. *)
Lemma match_keeps_components_example :
  doWork Reference.objects Reference.holdingA
         (Some Reference.itemB) (Some Reference.itemP)
    = Some (Reference.startedAssembling, None)
  /\ assemble Reference.objects Reference.itemP [Reference.itemA; Reference.itemB]
     = Some (Some Reference.itemP)
  /\ amAssembling Reference.startedAssembling = ASSEMBLE_TIME
  /\ ~ (leftHand Reference.startedAssembling = None
        /\ rightHand Reference.startedAssembling = None).
Proof.
  split; [vm_compute; reflexivity|].
  split; [vm_compute; reflexivity|].
  split; [reflexivity|]. intros [Hl _]. discriminate.
Qed.

(** C3 (amended): when the hands of an idle worker, after it has looked at
    its slot, hold two items that the finished product accepts, the worker
    starts assembling with the countdown at 4 and both components still in
    its hands.  In [simple.c] the worker that takes the second, different
    raw component holds both and starts the countdown at 4; its hands give
    the components up when the countdown reaches zero. *)
Theorem assembling_starts_with_components_in_hand :
  (forall h w it ft w1 out l r,
      amAssembling w <= 0 ->
      takeFromSlot h (setHasDoneWork true w) it it = Some (w1, out) ->
      leftHand w1 = Some l -> rightHand w1 = Some r ->
      assemble h ft [l; r] = Some (Some ft) ->
      exists w',
        doWork h w it (Some ft) = Some (w', out)
        /\ amAssembling w' = ASSEMBLE_TIME
        /\ leftHand w' = Some l /\ rightHand w' = Some r)
  /\ (forall w belt slot,
      Simple.buildTimeLeft w = 0 ->
      Simple.right w <> Simple.COMPONENT_NULL ->
      Simple.right w <> Simple.COMPONENT_P ->
      Simple.rd belt (Simple.pos w) = Some slot ->
      slot <> Simple.COMPONENT_NULL -> slot <> Simple.COMPONENT_P ->
      slot <> Simple.right w ->
      exists belt',
        Simple.doWork w belt
          = Some (Simple.mkworker (Simple.pos w) slot (Simple.right w)
                                  Simple.TIME_TO_BUILD_COMPONENT_P, belt')
        /\ Simple.rd belt' (Simple.pos w) = Some Simple.COMPONENT_NULL)
  /\ (forall w belt w' belt',
      Simple.buildTimeLeft w = 1 ->
      Simple.doWork w belt = Some (w', belt') ->
      Simple.buildTimeLeft w' = 0
      /\ Simple.left w' = Simple.COMPONENT_NULL
      /\ (Simple.right w' = Simple.COMPONENT_P \/ Simple.right w' = Simple.COMPONENT_NULL)).
Proof.
  split; [|split].
  - intros h w it ft w1 out l r Hidle Htake Hl Hr Hmatch.
    exists (setAmAssembling ASSEMBLE_TIME w1).
    rewrite doWork_idle by assumption. rewrite Htake. cbn.
    rewrite (startAssembling_match h (Some ft) w1 l r ft) by auto.
    now repeat split.
  - intros [p l r b] belt slot. cbn. intros -> Hrn Hrp Hslot Hsn Hsp Hd.
    unfold Simple.doWork. cbn.
    destruct (Z.eqb_spec r Simple.COMPONENT_P); [contradiction|].
    rewrite Hslot. cbn.
    destruct (Z.eqb_spec slot Simple.COMPONENT_NULL); [contradiction|].
    destruct (Z.eqb_spec slot Simple.COMPONENT_P); [contradiction|]. cbn.
    destruct (Z.eqb_spec r Simple.COMPONENT_NULL); [contradiction|].
    destruct (Z.eqb_spec r slot); [congruence|]. cbn.
    unfold Simple.wr, Simple.rd in *.
    destruct (Z.ltb_spec p 0) as [|Hge]; [discriminate|].
    apply lookup_lt_Some in Hslot.
    destruct (Z.leb_spec 0 p); [|lia].
    destruct (Z.ltb_spec p (Z.of_nat (length belt))); [|lia]. cbn.
    eexists. split; [reflexivity|].
    destruct (Z.ltb_spec p 0); [lia|].
    now apply list_lookup_insert_eq.
  - intros [p l r b] belt w' belt'. cbn. intros ->.
    unfold Simple.doWork. cbn.
    change (1 - 1 =? 0) with true. change (1 - 1) with 0. cbn.
    destruct (Simple.rd belt p) as [slot|]; cbn; [|discriminate].
    destruct (slot =? Simple.COMPONENT_NULL).
    + destruct (Simple.wr belt p Simple.COMPONENT_P); cbn; [|discriminate].
      intros [= <- <-]. cbn. auto.
    + intros [= <- <-]. cbn. auto.
Qed.

Lemma assembling_starts_with_components_in_hand_witness :
  (exists w',
     doWork Reference.objects
            (mkWorker 1 50 fzero false 0 (Some Reference.itemA) None)
            (Some Reference.itemB) (Some Reference.itemP) = Some (w', None)
     /\ amAssembling w' = ASSEMBLE_TIME
     /\ leftHand w' = Some Reference.itemA /\ rightHand w' = Some Reference.itemB)
  /\ (exists belt',
     Simple.doWork (Simple.mkworker 1 0 1 0) [0; 2; 0; 0; 0]
       = Some (Simple.mkworker 1 2 1 4, belt')
     /\ Simple.rd belt' 1 = Some 0)
  /\ (Simple.buildTimeLeft (Simple.mkworker 1 0 3 0) = 0
      /\ Simple.left (Simple.mkworker 1 0 3 0) = 0
      /\ (Simple.right (Simple.mkworker 1 0 3 0) = 3
          \/ Simple.right (Simple.mkworker 1 0 3 0) = 0)).
Proof.
  destruct assembling_starts_with_components_in_hand as (Hcore & Hsimple & Hdone).
  split; [|split].
  - apply (Hcore Reference.objects
             (mkWorker 1 50 fzero false 0 (Some Reference.itemA) None)
             (Some Reference.itemB) Reference.itemP
             (mkWorker 1 50 fzero true 0 (Some Reference.itemA) (Some Reference.itemB))
             None Reference.itemA Reference.itemB);
      try reflexivity; cbn; lia.
  - apply (Hsimple (Simple.mkworker 1 0 1 0) [0; 2; 0; 0; 0] 2);
      try reflexivity; cbn; unfold Simple.COMPONENT_NULL, Simple.COMPONENT_P; lia.
  - apply (Hdone (Simple.mkworker 1 2 1 1) [0; 2; 0; 0; 0]
                 (Simple.mkworker 1 0 3 0) [0; 2; 0; 0; 0]); reflexivity.
Defined.

(** C4: in the C++ core the activation that ends a countdown returns the
    finished product as the new contents of the slot whatever the slot held,
    and leaves both hands as they were: nothing is held back for an occupied
    slot and no hand is cleared. *)
Theorem finished_item_replaces_slot (h : store) (w : Worker) (it fin : ptr) :
  amAssembling w = 1 ->
  exists w',
    doWork h w it fin = Some (w', fin)
    /\ amAssembling w' = 0
    /\ leftHand w' = leftHand w /\ rightHand w' = rightHand w.
Proof.
  intros Hone. eexists. rewrite doWork_counting by lia. rewrite Hone.
  split; [reflexivity|]. now repeat split.
Qed.

Lemma finished_item_replaces_slot_witness :
  exists w',
    doWork Reference.objects
           (mkWorker 1 50 fzero false 1 (Some Reference.itemA) (Some Reference.itemB))
           (Some Reference.itemA) (Some Reference.itemP) = Some (w', Some Reference.itemP)
    /\ amAssembling w' = 0
    /\ leftHand w' = Some Reference.itemA /\ rightHand w' = Some Reference.itemB.
Proof.
  apply (finished_item_replaces_slot Reference.objects
           (mkWorker 1 50 fzero false 1 (Some Reference.itemA) (Some Reference.itemB))
           (Some Reference.itemA) (Some Reference.itemP)).
  reflexivity.
Defined.

(** C5: an idle worker of the C++ core with empty hands takes whatever item
    its slot holds, the finished product included: the slot is left empty
    and the item is in the left hand. *)
Theorem idle_worker_takes_finished_item (h : store) (w : Worker) (ft : addr)
  (item : ItemType) :
  amAssembling w = 0 -> leftHand w = None -> rightHand w = None ->
  h !! ft = Some item -> id item <> NULL_ITEM_ID ->
  doWork h w (Some ft) (Some ft)
    = Some (setLeftHand (Some ft) (setHasDoneWork true w), None).
Proof.
  intros Hidle Hl Hr Hitem Hid.
  destruct w as [p x q d a l r]. cbn in Hidle, Hl, Hr. subst a l r.
  unfold doWork, takeFromSlot, slotIsEmpty, getId. cbn. rewrite Hitem. cbn.
  destruct (Z.eqb_spec (id item) NULL_ITEM_ID); [contradiction|]. cbn.
  unfold fillHands. cbn.
  rewrite bool_decide_eq_true_2 by discriminate. cbn.
  rewrite bool_decide_eq_false_2 by (intros Hne; now apply Hne).
  reflexivity.
Qed.

Lemma idle_worker_takes_finished_item_witness :
  doWork Reference.objects (mkWorker 2 50 fzero false 0 None None)
         (Some Reference.itemP) (Some Reference.itemP)
    = Some (mkWorker 2 50 fzero true 0 (Some Reference.itemP) None, None).
Proof.
  apply (idle_worker_takes_finished_item Reference.objects
           (mkWorker 2 50 fzero false 0 None None) Reference.itemP
           (setComponentsRequired (Some [Reference.itemA; Reference.itemB])
              (ItemType_named 80 fzero None)));
    try reflexivity.
  vm_compute. discriminate.
Defined.

(** C6: in the C++ core a worker whose countdown is positive returns its
    slot unchanged only while the countdown stays positive; on the
    activation that brings it to zero the slot is given the finished product
    in place of whatever was offered. *)
Theorem countdown_end_replaces_offer (h : store) (w : Worker) (it fin : ptr) :
  0 < amAssembling w ->
  doWork h w it fin
    = Some (setAmAssembling (amAssembling w - 1) (setHasDoneWork true w),
            if amAssembling w =? 1 then fin else it).
Proof.
  intros Hpos. rewrite doWork_counting by assumption.
  replace (amAssembling w - 1 =? 0) with (amAssembling w =? 1); [reflexivity|].
  destruct (Z.eqb_spec (amAssembling w) 1), (Z.eqb_spec (amAssembling w - 1) 0);
    try reflexivity; lia.
Qed.

Lemma countdown_end_replaces_offer_witness :
  doWork Reference.objects
         (mkWorker 1 50 fzero false 1 (Some Reference.itemA) (Some Reference.itemB))
         (Some Reference.itemB) (Some Reference.itemP)
    = Some (mkWorker 1 50 fzero true 0 (Some Reference.itemA) (Some Reference.itemB),
            Some Reference.itemP).
Proof.
  apply (countdown_end_replaces_offer Reference.objects
           (mkWorker 1 50 fzero false 1 (Some Reference.itemA) (Some Reference.itemB))
           (Some Reference.itemB) (Some Reference.itemP)).
  reflexivity.
Defined.

End WorkerClaims.

(** ** The belt of the C++ core: [advanceBelt] *)

Section BeltFacts.
Import Core.

(** The block of a new belt has five cells for every slot. *)
Lemma Belt_new_cells (slots : Z) (garbage : ptr) (junk : nat -> ptr) :
  0 <= slots ->
  length (beltSlots (Belt_new slots garbage junk)) = (5 * Z.to_nat slots)%nat.
Proof.
  intros Hslots. cbn [Belt_new beltSlots].
  rewrite length_app, length_replicate, length_map, length_seq.
  unfold allocatedCells, SIZEOF_ItemType, SIZEOF_pointer.
  replace (slots * 40 / 8) with (5 * slots)
    by (rewrite <- (Z.div_mul (5 * slots) 8) by lia; f_equal; lia).
  lia.
Qed.

(** The moving loop only adds to the log it is given. *)
Lemma moveLoop_log (i : nat) (n : Z) :
  forall cells log cells' log',
    moveLoop i n cells log = Some (cells', log') ->
    exists more, log' = log ++ more.
Proof.
  induction i as [|j IH]; intros cells log cells' log'.
  - cbn. intros [= _ <-]. exists []. now rewrite app_nil_r.
  - cbn [moveLoop].
    destruct (Z.of_nat (S j) >=? n).
    + destruct (readCell cells (Z.of_nat (S j) - n)) as [v|]; [cbn|discriminate].
      destruct (writeCell cells (Z.of_nat (S j)) v) as [c1|]; [cbn|discriminate].
      intros Hrest. apply IH in Hrest as [more ->].
      eexists. now rewrite <- app_assoc.
    + destruct (writeCell cells (Z.of_nat (S j)) None) as [c1|]; [cbn|discriminate].
      intros Hrest. apply IH in Hrest as [more ->].
      eexists. now rewrite <- app_assoc.
Qed.

(** Its first turn, for a shift by one, copies the last slot of the belt
    into the cell after it. *)
Lemma moveLoop_first_turn (j : nat) (cells cells' : list ptr) (log log' : list access) :
  moveLoop (S j) 1 cells log = Some (cells', log') ->
  exists more, log' = log ++ [Rd (Z.of_nat (S j) - 1); Wr (Z.of_nat (S j))] ++ more.
Proof.
  cbn [moveLoop].
  destruct (Z.geb_spec (Z.of_nat (S j)) 1) as [_|Hlt]; [|lia].
  destruct (readCell cells (Z.of_nat (S j) - 1)) as [v|]; [cbn|discriminate].
  destruct (writeCell cells (Z.of_nat (S j)) v) as [c1|]; [cbn|discriminate].
  intros Hrest. apply moveLoop_log in Hrest as [more ->].
  exists more. now rewrite <- app_assoc.
Qed.

(** One turn of the moving loop for a shift by one, inside the allocation. *)
Lemma moveLoop_turn (j : nat) (cells : list ptr) (log : list access) (v : ptr) :
  cells !! j = Some v -> (S j < length cells)%nat ->
  moveLoop (S j) 1 cells log
    = moveLoop j 1 (<[S j := v]> cells)
               (log ++ [Rd (Z.of_nat j); Wr (Z.of_nat (S j))]).
Proof.
  intros Hv Hlen. cbn [moveLoop].
  destruct (Z.geb_spec (Z.of_nat (S j)) 1) as [_|Hlt]; [|lia].
  replace (Z.of_nat (S j) - 1) with (Z.of_nat j) by lia.
  unfold readCell, writeCell.
  destruct (Z.ltb_spec (Z.of_nat j) 0); [lia|].
  rewrite !Nat2Z.id, Hv. cbn [mbind option_bind].
  destruct (Z.leb_spec 0 (Z.of_nat (S j))); [|lia].
  destruct (Z.ltb_spec (Z.of_nat (S j)) (Z.of_nat (length cells))); [|lia].
  reflexivity.
Qed.

End BeltFacts.

Section BeltClaims.
Import Core.

(** C2: on a belt of five slots a shift by one moves the contents of slots
    0..3 one slot on and counts the occupant of slot 4 once, but it does not
    empty slot 0, which keeps what it held (the same pointer is then in
    slots 0 and 1); the old occupant of slot 4 goes to the cell after the
    belt. *)
Theorem advanceBelt_five_slots (h : store) (b : Belt) (c0 c1 c2 c3 c4 c5 : ptr)
  (rest : list ptr) :
  numberOfSlots b = 5 ->
  beltSlots b = c0 :: c1 :: c2 :: c3 :: c4 :: c5 :: rest ->
  (forall a, c4 = Some a -> is_Some (h !! a)) ->
  exists h' b' log,
    advanceBelt 1 h b = Some (h', b', log)
    /\ beltSlots b' = c0 :: c0 :: c1 :: c2 :: c3 :: c4 :: rest
    /\ match c4 with
       | Some a => update incrementNumberCollected a h = Some h'
       | None => h' = h
       end.
Proof.
  intros Hn Hcells Hvalid. unfold advanceBelt. rewrite Hn, Hcells.
  change (u32 (5 - 1)) with 4. change (u32 (4 - 1)) with 3.
  change (4 <? 2 ^ 31) with true. change (5 <? 2 ^ 31) with true.
  change (Z.to_nat 4) with 4%nat. change (Z.to_nat 5) with 5%nat.
  cbn [countLoop]. change (Z.of_nat 4 >? 3) with true.
  change (readCell (c0 :: c1 :: c2 :: c3 :: c4 :: c5 :: rest) (Z.of_nat 4))
    with (Some c4).
  change (Z.of_nat 3 >? 3) with false. cbn [mbind option_bind].
  assert (Hmove : forall log,
             moveLoop 5 1 (c0 :: c1 :: c2 :: c3 :: c4 :: c5 :: rest) log
             = Some (c0 :: c0 :: c1 :: c2 :: c3 :: c4 :: rest,
                     ((((log ++ [Rd 4; Wr 5]) ++ [Rd 3; Wr 4]) ++ [Rd 2; Wr 3])
                        ++ [Rd 1; Wr 2]) ++ [Rd 0; Wr 1])).
  { intros log.
    rewrite (moveLoop_turn 4 _ _ c4) by (first [reflexivity | cbn; lia]).
    rewrite (moveLoop_turn 3 _ _ c3) by (first [reflexivity | cbn; lia]).
    rewrite (moveLoop_turn 2 _ _ c2) by (first [reflexivity | cbn; lia]).
    rewrite (moveLoop_turn 1 _ _ c1) by (first [reflexivity | cbn; lia]).
    rewrite (moveLoop_turn 0 _ _ c0) by (first [reflexivity | cbn; lia]).
    reflexivity. }
  destruct c4 as [a|].
  - destruct (Hvalid a eq_refl) as [ita Ha].
    unfold update. rewrite Ha. cbn [mbind option_bind]. rewrite Hmove.
    do 3 eexists. split; [reflexivity|]. split; reflexivity.
  - cbn [mbind option_bind]. rewrite Hmove.
    do 3 eexists. split; [reflexivity|]. split; reflexivity.
Qed.

Lemma advanceBelt_five_slots_witness :
  exists h' b' log,
    advanceBelt 1 Reference.objects Reference.loadedBelt = Some (h', b', log)
    /\ beltSlots b' = Some Reference.itemA :: Some Reference.itemA :: None :: None
                        :: None :: Some Reference.itemB :: replicate 19 None
    /\ update incrementNumberCollected Reference.itemB Reference.objects = Some h'.
Proof.
  apply (advanceBelt_five_slots Reference.objects Reference.loadedBelt
           (Some Reference.itemA) None None None (Some Reference.itemB) None
           (replicate 19 None)).
  - reflexivity.
  - reflexivity.
  - intros a [= <-]. vm_compute. eauto.
Defined.

(** C9: a shift by one on a belt of N slots writes the cell of index N, one
    past the last slot N-1. *)
Theorem advanceBelt_writes_past_last_slot (h h' : store) (b b' : Belt)
  (log : list access) :
  0 < numberOfSlots b < 2 ^ 31 ->
  advanceBelt 1 h b = Some (h', b', log) ->
  In (Wr (numberOfSlots b)) log.
Proof.
  intros [Hlo Hhi]. unfold advanceBelt.
  destruct (if u32 (numberOfSlots b - 1) <? 2 ^ 31
            then countLoop (Z.to_nat (u32 (numberOfSlots b - 1)))
                   (u32 (u32 (numberOfSlots b - 1) - 1)) (beltSlots b) h []
            else if u32 (numberOfSlots b - 1) >? u32 (u32 (numberOfSlots b - 1) - 1)
                 then None else Some (h, [])) as [[h1 log1]|]; [cbn|discriminate].
  destruct (Z.ltb_spec (numberOfSlots b) (2 ^ 31)); [|lia].
  destruct (Z.to_nat (numberOfSlots b)) as [|j] eqn:Hj; [lia|].
  destruct (moveLoop (S j) 1 (beltSlots b) log1) as [[cells log2]|] eqn:Hmove;
    [cbn|discriminate].
  intros [= _ _ <-].
  apply moveLoop_first_turn in Hmove as [more ->].
  replace (numberOfSlots b) with (Z.of_nat (S j)) by lia.
  apply in_or_app. right. cbn. auto.
Qed.

Lemma advanceBelt_writes_past_last_slot_witness :
  exists log,
    advanceBelt 1 Reference.objects (Belt_new 5 None (fun _ => None))
      = Some (Reference.objects, Belt_new 5 None (fun _ => None), log)
    /\ In (Wr 5) log.
Proof.
  eexists. split.
  - vm_compute. reflexivity.
  - apply (advanceBelt_writes_past_last_slot Reference.objects Reference.objects
             (Belt_new 5 None (fun _ => None))
             (Belt_new 5 None (fun _ => None))).
    + vm_compute. split; reflexivity.
    + vm_compute. reflexivity.
Defined.

End BeltClaims.

(** ** The registry of item factories *)

Section RegistryFacts.
Import Core Registry.





End RegistryFacts.

Section RegistryClaims.
Import Core Registry.





End RegistryClaims.

(** ** The step loop of the C++ core *)

Section RunFacts.
Import Core.

Variable rng : random_source.

Lemma step_failed_draw (s : Sim) :
  getNextItem (heap s) (belt s) (rng (drawn s)) = Some None ->
  step rng s = (SelectionFailed, mkSim (heap s) (belt s) (S (drawn s)) (activations s)).
Proof. intros Hdraw. unfold step. now rewrite Hdraw. Qed.

(** A run of [k + m] steps is a run of [k] steps followed, if they all
    completed, by a run of [m] steps. *)
Lemma runSim_add (k m : nat) :
  forall s,
    runSim rng (k + m) s =
      match runSim rng k s with
      | (Completed, s1) => runSim rng m s1
      | stopped => stopped
      end.
Proof.
  induction k as [|k IH]; intros s; [reflexivity|].
  cbn [Nat.add runSim].
  destruct (step rng s) as [[ | | ] s1]; [apply IH | reflexivity | reflexivity].
Qed.

Lemma advanceBelt_workers (n : Z) (h h' : store) (b b' : Belt) (log : list access) :
  advanceBelt n h b = Some (h', b', log) ->
  length (workers b') = length (workers b).
Proof.
  unfold advanceBelt.
  destruct (if u32 (numberOfSlots b - 1) <? 2 ^ 31 then _ else _) as [[h1 log1]|];
    [cbn|discriminate].
  destruct (if numberOfSlots b <? 2 ^ 31 then _ else _) as [[cells log2]|];
    [cbn|discriminate].
  intros [= _ <- _]. cbn. apply length_map.
Qed.

Lemma setSlot_workers (it : ptr) (slot : Z) (b b' : Belt) :
  setSlot it slot b = Some b' -> workers b' = workers b.
Proof.
  unfold setSlot. destruct (writeCell (beltSlots b) slot it); [cbn|discriminate].
  now intros [= <-].
Qed.

Lemma getNextWorker_workers (b : Belt) (p : probability) :
  workers (snd (getNextWorker b p)) = workers b.
Proof.
  unfold getNextWorker.
  destruct (selectWorker _ _ _ _) as [k|]; [|reflexivity].
  now destruct (workers b !! k).
Qed.

(** A completed turn of the loop has called [doWork] once, on a worker of
    the chain. *)
Lemma step_completed (s s' : Sim) :
  step rng s = (Completed, s') ->
  exists k, (k < length (workers (belt s)))%nat
            /\ activations s' = activations s ++ [k]
            /\ length (workers (belt s')) = length (workers (belt s)).
Proof.
  unfold step.
  destruct (getNextItem (heap s) (belt s) (rng (drawn s))) as [[next|]|];
    [|discriminate|discriminate].
  destruct (advanceBelt 1 (heap s) (belt s)) as [[[h1 b1] log]|] eqn:Hadv;
    [cbn|discriminate].
  destruct (setSlot (Some next) 0 b1) as [b2|] eqn:Hset; [cbn|discriminate].
  pose proof (getNextWorker_workers b2 (rng (S (drawn s)))) as Hnext.
  destruct (getNextWorker b2 (rng (S (drawn s)))) as [wk b3]. cbn in Hnext.
  destruct wk as [k|]; [cbn|discriminate].
  destruct (workers b3 !! k) as [w|] eqn:Hw; [cbn|discriminate].
  destruct (getSlot b3 (position w)) as [it|]; [cbn|discriminate].
  destruct (doWork h1 w it (getFinishedItems b3)) as [[w1 newIt]|]; [cbn|discriminate].
  destruct (setSlot newIt (position w) (setWorkers (<[k:=w1]> (workers b3)) b3))
    as [b4|] eqn:Hset2; [cbn|discriminate].
  intros [= <-]. cbn.
  apply lookup_lt_Some in Hw.
  apply advanceBelt_workers in Hadv. apply setSlot_workers in Hset.
  apply setSlot_workers in Hset2. cbn in Hset2.
  exists k. rewrite Hset2, length_insert.
  repeat split; congruence.
Qed.

Lemma advanceBelt_effect (n : Z) (h h' : store) (b b' : Belt) (log : list access) :
  advanceBelt n h b = Some (h', b', log) ->
  Life.sameKinds h h'
  /\ workers b' = map (setHasDoneWork false) (workers b)
  /\ finishedItems b' = finishedItems b.
Proof.
  unfold advanceBelt.
  destruct (if u32 (numberOfSlots b - 1) <? 2 ^ 31 then _ else _)
    as [[h1 log1]|] eqn:Hcount; [cbn|discriminate].
  destruct (if numberOfSlots b <? 2 ^ 31 then _ else _) as [[cells log2]|];
    [cbn|discriminate].
  intros [= <- <- _]. cbn. split; [|now split].
  destruct (u32 (numberOfSlots b - 1) <? 2 ^ 31).
  - now apply countLoop_sameKinds in Hcount.
  - destruct (u32 (numberOfSlots b - 1) >? _); [discriminate|].
    injection Hcount as <- _. apply sameKinds_refl.
Qed.

Lemma setSlot_finishedItems (it : ptr) (slot : Z) (b b' : Belt) :
  setSlot it slot b = Some b' -> finishedItems b' = finishedItems b.
Proof.
  unfold setSlot. destruct (writeCell (beltSlots b) slot it); [cbn|discriminate].
  now intros [= <-].
Qed.

Lemma getNextWorker_finishedItems (b : Belt) (p : probability) :
  finishedItems (snd (getNextWorker b p)) = finishedItems b.
Proof.
  unfold getNextWorker.
  destruct (selectWorker _ _ _ _) as [k|]; [|reflexivity].
  now destruct (workers b !! k).
Qed.

(** Over a completed step the kinds in the heap and the finished product
    stay as they are, and every worker of the chain lives on as [evolves]
    describes. *)
Lemma step_evolves (s s' : Sim) :
  step rng s = (Completed, s') ->
  Life.sameKinds (heap s) (heap s')
  /\ finishedItems (belt s') = finishedItems (belt s)
  /\ forall j w, workers (belt s) !! j = Some w ->
       exists w', workers (belt s') !! j = Some w'
                  /\ Life.evolves (heap s) (finishedItems (belt s)) w w'.
Proof.
  unfold step.
  destruct (getNextItem (heap s) (belt s) (rng (drawn s))) as [[next|]|];
    [|discriminate|discriminate].
  destruct (advanceBelt 1 (heap s) (belt s)) as [[[h1 b1] log]|] eqn:Hadv;
    [cbn|discriminate].
  destruct (setSlot (Some next) 0 b1) as [b2|] eqn:Hset; [cbn|discriminate].
  pose proof (getNextWorker_workers b2 (rng (S (drawn s)))) as Hnext.
  pose proof (getNextWorker_finishedItems b2 (rng (S (drawn s)))) as Hfin.
  destruct (getNextWorker b2 (rng (S (drawn s)))) as [wk b3]. cbn in Hnext, Hfin.
  destruct wk as [k|]; [cbn|discriminate].
  destruct (workers b3 !! k) as [wk|] eqn:Hwk; [cbn|discriminate].
  destruct (getSlot b3 (position wk)) as [it|]; [cbn|discriminate].
  destruct (doWork h1 wk it (getFinishedItems b3)) as [[w1 newIt]|] eqn:Hwork;
    [cbn|discriminate].
  destruct (setSlot newIt (position wk) (setWorkers (<[k:=w1]> (workers b3)) b3))
    as [b4|] eqn:Hset2; [cbn|discriminate].
  intros [= <-]. cbn.
  apply advanceBelt_effect in Hadv as (Hkinds & Hws1 & Hfin1).
  pose proof (setSlot_workers _ _ _ _ Hset) as Hws2.
  pose proof (setSlot_finishedItems _ _ _ _ Hset) as Hfin2.
  pose proof (setSlot_workers _ _ _ _ Hset2) as Hws4.
  pose proof (setSlot_finishedItems _ _ _ _ Hset2) as Hfin4.
  cbn in Hws4, Hfin4.
  assert (Hfinal : finishedItems b3 = finishedItems (belt s)) by congruence.
  split; [exact Hkinds|]. split; [congruence|].
  intros j w Hj.
  assert (Hj3 : workers b3 !! j = Some (setHasDoneWork false w)).
  { rewrite Hnext, Hws2, Hws1, list_lookup_fmap, Hj. reflexivity. }
  rewrite Hws4. destruct (decide (j = k)) as [->|Hne].
  - exists w1. split.
    + apply list_lookup_insert_eq. now apply lookup_lt_Some in Hwk.
    + rewrite Hwk in Hj3. injection Hj3 as ->.
      apply Life.evolves_reset.
      eapply Life.evolves_work; [exact Hkinds| |apply Life.evolves_refl].
      unfold getFinishedItems in Hwork. rewrite Hfinal in Hwork. exact Hwork.
  - exists (setHasDoneWork false w). split.
    + rewrite list_lookup_insert_ne by congruence. exact Hj3.
    + apply Life.evolves_reset, Life.evolves_refl.
Qed.

(** The same over a completed run. *)
Lemma runSim_evolves (steps : nat) :
  forall s s',
    runSim rng steps s = (Completed, s') ->
    Life.sameKinds (heap s) (heap s')
    /\ finishedItems (belt s') = finishedItems (belt s)
    /\ forall j w, workers (belt s) !! j = Some w ->
         exists w', workers (belt s') !! j = Some w'
                    /\ Life.evolves (heap s) (finishedItems (belt s)) w w'.
Proof.
  induction steps as [|k IH]; intros s s'.
  - cbn. intros [= <-]. split; [apply sameKinds_refl|]. split; [reflexivity|].
    intros j w Hj. exists w. split; [exact Hj | apply Life.evolves_refl].
  - cbn [runSim]. destruct (step rng s) as [[ | | ] s1] eqn:Hstep; try discriminate.
    intros Hrun. apply step_evolves in Hstep as (Hk1 & Hf1 & Hw1).
    apply IH in Hrun as (Hk2 & Hf2 & Hw2).
    split; [now apply sameKinds_trans with (heap s1)|]. split; [congruence|].
    intros j w Hj. destruct (Hw1 j w Hj) as (wa & Hja & Hea).
    destruct (Hw2 j wa Hja) as (wb & Hjb & Heb).
    exists wb. split; [exact Hjb|].
    apply evolves_trans with wa; [exact Hea|].
    rewrite Hf1 in Heb. now apply evolves_sameKinds with (heap s1).
Qed.

(** A completed run of [steps] steps has called [doWork] [steps] times. *)
Lemma runSim_activation_count (steps : nat) :
  forall s s',
    runSim rng steps s = (Completed, s') ->
    length (activations s') = (length (activations s) + steps)%nat.
Proof.
  induction steps as [|k IH]; intros s s'.
  - cbn. intros [= <-]. lia.
  - cbn [runSim]. destruct (step rng s) as [[ | | ] s1] eqn:Hstep; try discriminate.
    intros Hrun. apply IH in Hrun. apply step_completed in Hstep as (j & _ & Hact & _).
    rewrite Hrun, Hact, length_app. cbn. lia.
Qed.

(** In a completed run a worker whose hands are full ends with the same two
    items in its hands. *)
Lemma runSim_keeps_full_hands (steps : nat) (s s' : Sim) (j : nat) (w : Worker) :
  runSim rng steps s = (Completed, s') ->
  workers (belt s) !! j = Some w ->
  Life.handsFull w ->
  exists w', workers (belt s') !! j = Some w'
             /\ leftHand w' = leftHand w /\ rightHand w' = rightHand w.
Proof.
  intros Hrun Hj Hfull.
  apply runSim_evolves in Hrun as (_ & _ & Hlife).
  destruct (Hlife j w Hj) as (w' & Hj' & Hev).
  exists w'. split; [exact Hj'|].
  now apply (evolves_full_hands (heap s) (finishedItems (belt s)) w w').
Qed.

End RunFacts.

Section RunClaims.
Import Core.

(** C7: when, after [k] completed steps, the draw of [getNextItem] hits no
    item type, [runSim] stops there however many steps were asked for: the
    heap, the belt and the calls of [doWork] are those of the [k] steps, and
    the failed draw is the last one taken. *)
Theorem runSim_stops_on_failed_draw (rng : random_source) (k m : nat) (s s1 : Sim) :
  runSim rng k s = (Completed, s1) ->
  getNextItem (heap s1) (belt s1) (rng (drawn s1)) = Some None ->
  runSim rng (k + S m) s
    = (SelectionFailed, mkSim (heap s1) (belt s1) (S (drawn s1)) (activations s1)).
Proof.
  intros Hrun Hdraw. rewrite runSim_add, Hrun.
  cbn [runSim]. now rewrite step_failed_draw.
Qed.

(** C1: every completed step of [runSim] calls [doWork] exactly once, on one
    worker of the chain; with two or more workers registered, some
    registered worker is not activated in that step. *)
Theorem step_activates_one_worker (rng : random_source) (s s' : Sim) :
  step rng s = (Completed, s') ->
  exists k,
    (k < length (workers (belt s)))%nat
    /\ activations s' = activations s ++ [k]
    /\ ((2 <= length (workers (belt s)))%nat ->
        exists j, (j < length (workers (belt s)))%nat
                  /\ j ∉ drop (length (activations s)) (activations s')).
Proof.
  intros Hstep. destruct (step_completed rng s s' Hstep) as (k & Hk & Hact & _).
  exists k. split; [exact Hk|]. split; [exact Hact|].
  intros Htwo. rewrite Hact, drop_app_length.
  destruct k as [|k].
  - exists 1%nat. split; [lia|]. intros Hin. apply list_elem_of_singleton in Hin. lia.
  - exists 0%nat. split; [lia|]. intros Hin. apply list_elem_of_singleton in Hin. lia.
Qed.

End RunClaims.

Section RunWitnesses.
Import Core.

Lemma runSim_stops_on_failed_draw_witness :
  runSim Reference.thirdDrawIsOne 1 Reference.twelveStart
    = (Completed, Reference.afterOneStep)
  /\ getNextItem (heap Reference.afterOneStep) (belt Reference.afterOneStep) fone
     = Some None
  /\ runSim Reference.thirdDrawIsOne (1 + 99) Reference.twelveStart
     = (SelectionFailed,
        mkSim (heap Reference.afterOneStep) (belt Reference.afterOneStep) 3 [0%nat]).
Proof.
  assert (Hrun : runSim Reference.thirdDrawIsOne 1 Reference.twelveStart
                 = (Completed, Reference.afterOneStep))
    by (vm_compute; reflexivity).
  assert (Hdraw : getNextItem (heap Reference.afterOneStep) (belt Reference.afterOneStep)
                    (Reference.thirdDrawIsOne (drawn Reference.afterOneStep))
                  = Some None)
    by (vm_compute; reflexivity).
  split; [exact Hrun|]. split; [exact Hdraw|].
  exact (runSim_stops_on_failed_draw Reference.thirdDrawIsOne 1 98
           Reference.twelveStart Reference.afterOneStep Hrun Hdraw).
Defined.

Lemma step_activates_one_worker_witness :
  length (workers (belt Reference.start)) = 6%nat
  /\ exists k,
    (k < length (workers (belt Reference.start)))%nat
    /\ activations Reference.afterFirstStep = activations Reference.start ++ [k]
    /\ ((2 <= length (workers (belt Reference.start)))%nat ->
        exists j, (j < length (workers (belt Reference.start)))%nat
                  /\ j ∉ drop (length (activations Reference.start))
                            (activations Reference.afterFirstStep)).
Proof.
  split; [reflexivity|].
  apply (step_activates_one_worker (fun _ => Reference.half) Reference.start
           Reference.afterFirstStep).
  vm_compute. reflexivity.
Defined.

End RunWitnesses.

(** ** More about [ItemType::assemble] *)

Section AssembleFacts.
Import Core.

Variable h : store.

#[local] Abbreviation live := (Roster.live h).

Lemma componentFound_live (x : addr) (available : list addr) :
  live x -> Forall live available ->
  exists found,
    componentFound h x available = Some found
    /\ (found = true <-> exists y, y ∈ available /\ getId h y = getId h x).
Proof.
  intros [ix Hx] Hlive. induction Hlive as [|y ys [iy Hy] _ IH].
  - exists false. split; [reflexivity|]. split; [discriminate|].
    intros (y & Hin & _). now apply elem_of_nil in Hin.
  - cbn [componentFound]. unfold getId at 1 2. rewrite Hy, Hx. cbn.
    destruct (Z.eqb_spec (id iy) (id ix)) as [Heq|Hne].
    + exists true. split; [reflexivity|]. split; [|reflexivity].
      intros _. exists y. split; [left|]. unfold getId. rewrite Hy, Hx. cbn. congruence.
    + destruct IH as (found & Hrun & Hiff). exists found. split; [exact Hrun|].
      rewrite Hiff. split.
      * intros (z & Hz & Hid). exists z. split; [now right | exact Hid].
      * intros (z & Hz & Hid). apply elem_of_cons in Hz as [->|Hz].
        -- unfold getId in Hid. rewrite Hy, Hx in Hid. cbn in Hid. congruence.
        -- exists z. now split.
Qed.

Lemma componentFound_dangling (x y : addr) (ys : list addr) :
  h !! x = None -> live y -> componentFound h x (y :: ys) = None.
Proof.
  intros Hx [iy Hy]. cbn [componentFound]. unfold getId. rewrite Hy, Hx. reflexivity.
Qed.

Lemma allComponentsFound_live (required available : list addr) :
  Forall live required -> Forall live available ->
  exists ok,
    allComponentsFound h required available = Some ok
    /\ (ok = true <->
        forall x, x ∈ required -> exists y, y ∈ available /\ getId h y = getId h x).
Proof.
  intros Hreq Havail. induction Hreq as [|x xs Hx _ IH].
  - exists true. split; [reflexivity|]. split; [|reflexivity].
    intros _ x Hin. now apply elem_of_nil in Hin.
  - cbn [allComponentsFound].
    destruct (componentFound_live x available Hx Havail) as (found & Hrun & Hiff).
    rewrite Hrun. cbn. destruct found.
    + destruct IH as (ok & Hrest & Hall). exists ok. split; [exact Hrest|].
      rewrite Hall. split.
      * intros Hxs z Hz. apply elem_of_cons in Hz as [->|Hz]; [now apply Hiff | auto].
      * intros Hxs z Hz. apply Hxs. now right.
    + exists false. split; [reflexivity|]. split; [discriminate|].
      intros Hall. apply Hiff, Hall. left.
Qed.

Lemma missing_component (required available : list addr) :
  Forall live required -> Forall live available ->
  ~ (forall x, x ∈ required -> exists y, y ∈ available /\ getId h y = getId h x) ->
  exists x, x ∈ required /\ forall y, y ∈ available -> getId h y <> getId h x.
Proof.
  intros Hreq Havail. induction Hreq as [|x xs Hx _ IH]; intros Hnot.
  - exfalso. apply Hnot. intros x Hin. now apply elem_of_nil in Hin.
  - destruct (componentFound_live x available Hx Havail) as (found & _ & Hfound).
    destruct found.
    + destruct IH as (z & Hz & Hnone).
      { intros Hall. apply Hnot. intros z Hz.
        apply elem_of_cons in Hz as [->|Hz]; [now apply Hfound | auto]. }
      exists z. split; [now right | exact Hnone].
    + exists x. split; [left|]. intros y Hy Hid.
      assert (false = true); [|discriminate]. apply Hfound. eauto.
Qed.

Lemma componentFound_permutation (x : addr) (available available' : list addr) :
  Forall live available -> available ≡ₚ available' ->
  componentFound h x available' = componentFound h x available.
Proof.
  intros Hlive Hperm.
  assert (Hlive' : Forall live available') by (now rewrite <- Hperm).
  destruct (h !! x) as [ix|] eqn:Hx.
  - assert (Hlx : live x) by (unfold Roster.live; eauto).
    destruct (componentFound_live x available Hlx Hlive) as (f & Hf & Hiff).
    destruct (componentFound_live x available' Hlx Hlive') as (f' & Hf' & Hiff').
    rewrite Hf, Hf'. f_equal.
    assert (Hsame : f = true <-> f' = true).
    { rewrite Hiff, Hiff'. split; intros (y & Hy & Hid); exists y; split; auto.
      - now rewrite <- Hperm.
      - now rewrite Hperm. }
    destruct f, f'; try reflexivity.
    + now apply Hsame.
    + symmetry. now apply Hsame.
  - destruct available as [|y ys].
    + apply Permutation_nil_l in Hperm. now subst.
    + destruct available' as [|y' ys'].
      * now apply Permutation_nil_r in Hperm.
      * apply Forall_cons in Hlive as [Hy _]. apply Forall_cons in Hlive' as [Hy' _].
        now rewrite !componentFound_dangling.
Qed.

End AssembleFacts.

Section AssembleClaims.
Import Core.

#[local] Abbreviation live := Roster.live.

(** X1: called on a live finished product with a recipe, over live
    components, [assemble] returns the product exactly when the id of every
    required component is the id of some available one, and NULL otherwise. *)
Theorem assemble_matches_recipe (h : store) (this : addr) (me : ItemType)
  (required available : list addr) :
  h !! this = Some me ->
  componentsRequired me = Some required ->
  Forall (live h) required ->
  Forall (live h) available ->
  (assemble h this available = Some (Some this)
   /\ forall x, x ∈ required -> exists y, y ∈ available /\ getId h y = getId h x)
  \/ (assemble h this available = Some None
      /\ exists x, x ∈ required
                   /\ forall y, y ∈ available -> getId h y <> getId h x).
Proof.
  intros Hme Hreq Hlr Hla. unfold assemble. rewrite Hme. cbn. rewrite Hreq.
  destruct (allComponentsFound_live h required available Hlr Hla) as (ok & Hrun & Hiff).
  rewrite Hrun. cbn. destruct ok.
  - left. split; [reflexivity|]. now apply Hiff.
  - right. split; [reflexivity|].
    apply missing_component; try assumption.
    intros Hall. apply Hiff in Hall. discriminate.
Qed.

Lemma assemble_matches_recipe_witness :
  (assemble Reference.objects Reference.itemP [Reference.itemB; Reference.itemA]
     = Some (Some Reference.itemP)
   /\ forall x, x ∈ [Reference.itemA; Reference.itemB] ->
        exists y, y ∈ [Reference.itemB; Reference.itemA]
                  /\ getId Reference.objects y = getId Reference.objects x)
  \/ (assemble Reference.objects Reference.itemP [Reference.itemB; Reference.itemA]
        = Some None
      /\ exists x, x ∈ [Reference.itemA; Reference.itemB]
           /\ forall y, y ∈ [Reference.itemB; Reference.itemA] ->
                getId Reference.objects y <> getId Reference.objects x).
Proof.
  apply (assemble_matches_recipe Reference.objects Reference.itemP
           (setComponentsRequired (Some [Reference.itemA; Reference.itemB])
              (ItemType_named 80 fzero None))).
  - reflexivity.
  - reflexivity.
  - repeat constructor; vm_compute; eauto.
  - repeat constructor; vm_compute; eauto.
Defined.

(** X2: over live components the answer of [assemble] does not depend on
    their order: which hand holds which component makes no difference. *)
Theorem assemble_any_order (h : store) (this : addr) (available available' : list addr) :
  Forall (live h) available ->
  available ≡ₚ available' ->
  assemble h this available' = assemble h this available.
Proof.
  intros Hlive Hperm. unfold assemble.
  destruct (h !! this) as [me|]; [cbn|reflexivity].
  destruct (componentsRequired me) as [required|]; [|reflexivity].
  assert (Hall : allComponentsFound h required available'
                 = allComponentsFound h required available).
  { induction required as [|x xs IH]; [reflexivity|].
    cbn [allComponentsFound].
    rewrite (componentFound_permutation h x available available' Hlive Hperm).
    now rewrite IH. }
  now rewrite Hall.
Qed.

Lemma assemble_any_order_witness :
  assemble Reference.objects Reference.itemP [Reference.itemB; Reference.itemA]
  = assemble Reference.objects Reference.itemP [Reference.itemA; Reference.itemB].
Proof.
  apply (assemble_any_order Reference.objects Reference.itemP
           [Reference.itemA; Reference.itemB] [Reference.itemB; Reference.itemA]).
  - repeat constructor; vm_compute; eauto.
  - apply Permutation_swap.
Defined.

End AssembleClaims.

(** ** More about [Worker::doWork] *)

Section DoWorkFacts.
Import Core Life.

Variable h : store.
Variable fin : ptr.

Lemma doWork_countdown_range (w w' : Worker) (it out : ptr) :
  0 <= amAssembling w <= ASSEMBLE_TIME ->
  doWork h w it fin = Some (w', out) ->
  0 <= amAssembling w' <= ASSEMBLE_TIME.
Proof.
  intros Hrange Hrun.
  destruct (Z.ltb_spec 0 (amAssembling w)) as [Hpos|Hle].
  - rewrite doWork_counting in Hrun by assumption. injection Hrun as <- _. cbn. lia.
  - rewrite doWork_idle in Hrun by assumption.
    destruct (takeFromSlot h (setHasDoneWork true w) it it) as [[w1 o1]|] eqn:Ht;
      [cbn in Hrun|discriminate].
    apply takeFromSlot_amAssembling in Ht. cbn in Ht.
    destruct (startAssembling h w1 fin) as [w2|] eqn:Hs; [cbn in Hrun|discriminate].
    injection Hrun as <- _.
    apply startAssembling_hands in Hs as (_ & _ & [Hsame|Hfour]).
    + lia.
    + rewrite Hfour. unfold ASSEMBLE_TIME. lia.
Qed.

Lemma evolves_countdown_range (w w' : Worker) :
  evolves h fin w w' ->
  0 <= amAssembling w <= ASSEMBLE_TIME ->
  0 <= amAssembling w' <= ASSEMBLE_TIME.
Proof.
  induction 1 as [w | w w1 w2 h1 it out Hsame Hrun _ IH | w w2 _ IH]; intros Hrange.
  - exact Hrange.
  - rewrite (doWork_sameKinds h h1 Hsame) in Hrun.
    apply IH. eapply doWork_countdown_range; eassumption.
  - apply IH. exact Hrange.
Qed.

Lemma takeFromSlot_first (w : Worker) (a : addr) (item : ItemType) :
  leftHand w = None -> rightHand w = None ->
  h !! a = Some item -> id item <> NULL_ITEM_ID ->
  takeFromSlot h w (Some a) (Some a) = Some (setLeftHand (Some a) w, None).
Proof.
  destruct w as [p x q d n l r]. cbn. intros -> -> Ha Hid.
  unfold takeFromSlot, slotIsEmpty, getId. rewrite Ha. cbn.
  destruct (Z.eqb_spec (id item) NULL_ITEM_ID); [contradiction|]. cbn.
  unfold fillHands. cbn.
  rewrite bool_decide_eq_true_2 by discriminate. cbn.
  now rewrite bool_decide_eq_false_2 by (intros Hne; now apply Hne).
Qed.

Lemma takeFromSlot_second (w : Worker) (a b : addr) (item : ItemType) :
  leftHand w = Some a -> rightHand w = None -> a <> b ->
  h !! b = Some item -> id item <> NULL_ITEM_ID ->
  takeFromSlot h w (Some b) (Some b) = Some (setRightHand (Some b) w, None).
Proof.
  destruct w as [p x q d n l r]. cbn. intros -> -> Hab Hb Hid.
  unfold takeFromSlot, slotIsEmpty, getId. rewrite Hb. cbn.
  destruct (Z.eqb_spec (id item) NULL_ITEM_ID); [contradiction|]. cbn.
  unfold fillHands. cbn.
  now rewrite bool_decide_eq_true_2 by congruence.
Qed.

End DoWorkFacts.

Section DoWorkClaims.
Import Core Life.

(** X3: an idle worker either leaves its slot and its hands as they are, or
    takes the item of the slot into one empty hand and leaves the slot
    empty.  It takes only a live item whose id is not the null id, into the
    left hand if that is empty and the right hand does not hold the item,
    else into the empty right hand if the left hand holds another item. *)
Theorem doWork_takes_or_leaves (h : store) (w w' : Worker) (it fin out : ptr) :
  amAssembling w <= 0 ->
  doWork h w it fin = Some (w', out) ->
  (out = it /\ leftHand w' = leftHand w /\ rightHand w' = rightHand w)
  \/ (exists a item,
        it = Some a /\ h !! a = Some item /\ id item <> NULL_ITEM_ID /\ out = None
        /\ ((leftHand w = None /\ it <> rightHand w
             /\ leftHand w' = it /\ rightHand w' = rightHand w)
            \/ (is_Some (leftHand w) /\ rightHand w = None /\ it <> leftHand w
                /\ rightHand w' = it /\ leftHand w' = leftHand w))).
Proof.
  intros Hidle Hrun. rewrite doWork_idle in Hrun by assumption.
  destruct (takeFromSlot h (setHasDoneWork true w) it it) as [[w1 o1]|] eqn:Ht;
    [cbn in Hrun|discriminate].
  destruct (startAssembling h w1 fin) as [w2|] eqn:Hs; [cbn in Hrun|discriminate].
  injection Hrun as <- <-.
  apply startAssembling_hands in Hs as (Hl & Hr & _). rewrite Hl, Hr.
  unfold takeFromSlot, slotIsEmpty in Ht.
  destruct it as [a|]; [|injection Ht as <- <-; now left].
  unfold getId in Ht. destruct (h !! a) as [item|] eqn:Ha; [cbn in Ht|discriminate].
  destruct (Z.eqb_spec (id item) NULL_ITEM_ID) as [Hnull|Hid];
    [injection Ht as <- <-; now left|].
  injection Ht as Ht.
  destruct (fillHands_cases (setHasDoneWork true w) (Some a) (Some a))
    as [Hfill | [(H1 & H2 & Hfill) | (H1 & H2 & H3 & Hfill)]];
    rewrite Hfill in Ht; injection Ht as <- <-; cbn in *.
  - now left.
  - right. exists a, item. repeat split; try assumption; try reflexivity.
    left. now repeat split.
  - right. exists a, item. repeat split; try assumption; try reflexivity.
    right. now repeat split.
Qed.

Lemma doWork_takes_or_leaves_witness :
  (None = Some Reference.itemB
   /\ leftHand Reference.startedAssembling = leftHand Reference.holdingA
   /\ rightHand Reference.startedAssembling = rightHand Reference.holdingA)
  \/ (exists a item,
        Some Reference.itemB = Some a /\ Reference.objects !! a = Some item
        /\ id item <> NULL_ITEM_ID /\ None = (None : ptr)
        /\ ((leftHand Reference.holdingA = None
             /\ Some Reference.itemB <> rightHand Reference.holdingA
             /\ leftHand Reference.startedAssembling = Some Reference.itemB
             /\ rightHand Reference.startedAssembling = rightHand Reference.holdingA)
            \/ (is_Some (leftHand Reference.holdingA)
                /\ rightHand Reference.holdingA = None
                /\ Some Reference.itemB <> leftHand Reference.holdingA
                /\ rightHand Reference.startedAssembling = Some Reference.itemB
                /\ leftHand Reference.startedAssembling = leftHand Reference.holdingA))).
Proof.
  apply (doWork_takes_or_leaves Reference.objects Reference.holdingA
           Reference.startedAssembling (Some Reference.itemB) (Some Reference.itemP) None).
  - vm_compute. discriminate.
  - vm_compute. reflexivity.
Defined.

(** X4: an idle worker with empty hands that is offered two different live
    items which the finished product accepts takes both, one per activation,
    then returns whatever it is offered for three activations, and on the
    fourth returns the finished product; it still holds the two items. *)
Theorem assembly_cycle (h : store) (ft a b : addr) (ia ib : ItemType) (w : Worker)
  (i1 i2 i3 i4 : ptr) :
  amAssembling w = 0 -> leftHand w = None -> rightHand w = None ->
  h !! a = Some ia -> id ia <> NULL_ITEM_ID ->
  h !! b = Some ib -> id ib <> NULL_ITEM_ID ->
  a <> b ->
  assemble h ft [a; b] = Some (Some ft) ->
  Roster.serve h (Some ft) w [Some a; Some b; i1; i2; i3; i4]
    = Some (mkWorker (position w) (workerWeight w) (workProbability w) true 0
                     (Some a) (Some b),
            [None; None; i1; i2; i3; Some ft]).
Proof.
  destruct w as [p x q d n l r]. cbn.
  intros -> -> -> Ha Hia Hb Hib Hab Hmatch.
  cbn [Roster.serve].
  rewrite doWork_idle by (cbn; lia).
  rewrite (takeFromSlot_first h _ a ia) by (assumption || reflexivity).
  cbn [mbind option_bind startAssembling setLeftHand setHasDoneWork leftHand rightHand].
  rewrite doWork_idle by (cbn; lia).
  rewrite (takeFromSlot_second h _ a b ib) by (assumption || reflexivity).
  cbn [mbind option_bind].
  rewrite (startAssembling_match h (Some ft) _ a b ft) by (assumption || reflexivity).
  cbn [mbind option_bind].
  rewrite !doWork_counting by (cbn; unfold ASSEMBLE_TIME; lia).
  reflexivity.
Qed.

Lemma assembly_cycle_witness :
  Roster.serve Reference.objects (Some Reference.itemP)
    (mkWorker 1 50 fzero false 0 None None)
    [Some Reference.itemA; Some Reference.itemB; None; Some Reference.itemA; None; None]
  = Some (mkWorker 1 50 fzero true 0 (Some Reference.itemA) (Some Reference.itemB),
          [None; None; None; Some Reference.itemA; None; Some Reference.itemP]).
Proof.
  apply (assembly_cycle Reference.objects Reference.itemP Reference.itemA Reference.itemB
           (ItemType_named 65 fzero None) (ItemType_named 66 fzero None)
           (mkWorker 1 50 fzero false 0 None None));
    try reflexivity; try (vm_compute; discriminate).
Defined.

End DoWorkClaims.

(** ** More about the registries and the two draws *)

Section DrawFacts.
Import Core.



Lemma selectWorker_unselected (p : probability) (chain : list Worker) :
  forall c k0 k,
    selectWorker p c chain k0 = Some k ->
    exists j wk, k = (k0 + j)%nat /\ chain !! j = Some wk /\ doneWork wk = false.
Proof.
  induction chain as [|wk rest IH]; intros c k0 k; [discriminate|].
  cbn [selectWorker]. destruct (doneWork wk) eqn:Hdone.
  - intros Hsel. apply IH in Hsel as (j & wj & -> & Hj & Hd).
    exists (S j), wj. split; [lia|]. now split.
  - destruct (fle p (fadd c (workProbability wk))).
    + intros [= <-]. exists 0%nat, wk. split; [lia|]. now split.
    + intros Hsel. apply IH in Hsel as (j & wj & -> & Hj & Hd).
      exists (S j), wj. split; [lia|]. now split.
Qed.

Lemma selectWorker_all_done (p : probability) (chain : list Worker) :
  Forall (fun wk => doneWork wk = true) chain ->
  forall c k0, selectWorker p c chain k0 = None.
Proof.
  induction 1 as [|wk rest Hdone _ IH]; intros c k0; [reflexivity|].
  cbn [selectWorker]. rewrite Hdone. apply IH.
Qed.


End DrawFacts.

Section DrawClaims.
Import Core.



(** X6: the worker that [getNextWorker] returns has not done work yet, and
    the probability space shrinks by that worker's share and nothing else on
    the belt changes; when every worker has done work, or the draw hits
    nobody, it returns NULL and leaves the belt as it is. *)
Theorem getNextWorker_selects_unselected (b : Belt) (p : probability) :
  (forall k b',
      getNextWorker b p = (Some k, b') ->
      exists wk,
        workers b !! k = Some wk /\ doneWork wk = false
        /\ b' = setCurrentWorkerMaxProbability
                  (fsub (currentWorkerMaxProbability b) (workProbability wk)) b)
  /\ (Forall (fun wk => doneWork wk = true) (workers b) ->
      getNextWorker b p = (None, b))
  /\ (forall b', getNextWorker b p = (None, b') -> b' = b).
Proof.
  unfold getNextWorker. split; [|split].
  - intros k b'.
    destruct (selectWorker (fmul p (currentWorkerMaxProbability b)) fzero (workers b) 0)
      as [k1|] eqn:Hsel; [|discriminate].
    apply selectWorker_unselected in Hsel as (j & wj & -> & Hj & Hdone).
    cbn [Nat.add]. rewrite Hj. intros [= <- <-]. exists wj. now repeat split.
  - intros Hall. now rewrite selectWorker_all_done.
  - intros b'.
    destruct (selectWorker (fmul p (currentWorkerMaxProbability b)) fzero (workers b) 0)
      as [k1|]; [|now intros [= <-]].
    destruct (workers b !! k1); [discriminate | now intros [= <-]].
Qed.

Lemma getNextWorker_selects_unselected_witness :
  exists wk,
    workers (belt Reference.start) !! 2%nat = Some wk /\ doneWork wk = false
    /\ snd (getNextWorker (belt Reference.start) Reference.half)
       = setCurrentWorkerMaxProbability
           (fsub (currentWorkerMaxProbability (belt Reference.start))
                 (workProbability wk))
           (belt Reference.start).
Proof.
  apply (proj1 (getNextWorker_selects_unselected (belt Reference.start)
                                                 Reference.half)
               2%nat (snd (getNextWorker (belt Reference.start) Reference.half))).
  vm_compute. reflexivity.
Defined.



End DrawClaims.

(** ** More about [Belt::advanceBelt] *)

Section ShiftFacts.
Import Core.

Lemma readCell_nat (cells : list ptr) (j : nat) :
  readCell cells (Z.of_nat j) = cells !! j.
Proof.
  unfold readCell. destruct (Z.ltb_spec (Z.of_nat j) 0); [lia|]. now rewrite Nat2Z.id.
Qed.

Lemma writeCell_nat (cells cells' : list ptr) (j : nat) (v : ptr) :
  writeCell cells (Z.of_nat j) v = Some cells' ->
  (j < length cells)%nat /\ cells' = <[j := v]> cells.
Proof.
  unfold writeCell.
  destruct (Z.leb_spec 0 (Z.of_nat j)); [|lia].
  destruct (Z.ltb_spec (Z.of_nat j) (Z.of_nat (length cells))); cbn; [|discriminate].
  rewrite Nat2Z.id. intros [= <-]. split; [lia | reflexivity].
Qed.

Lemma writeCell_in_range (cells : list ptr) (j : nat) (v : ptr) :
  (j < length cells)%nat -> writeCell cells (Z.of_nat j) v = Some (<[j := v]> cells).
Proof.
  intros Hj. unfold writeCell.
  destruct (Z.leb_spec 0 (Z.of_nat j)); [|lia].
  destruct (Z.ltb_spec (Z.of_nat j) (Z.of_nat (length cells))); [|lia].
  cbn. now rewrite Nat2Z.id.
Qed.

(** The moving loop keeps the size of the block, for every [n]. *)
Lemma moveLoop_length (i : nat) (n : Z) :
  forall cells log cells' log',
    moveLoop i n cells log = Some (cells', log') -> length cells' = length cells.
Proof.
  induction i as [|j IH]; intros cells log cells' log'.
  - now intros [= <- _].
  - cbn [moveLoop]. destruct (Z.of_nat (S j) >=? n).
    + destruct (readCell cells (Z.of_nat (S j) - n)) as [v|]; [cbn|discriminate].
      destruct (writeCell cells (Z.of_nat (S j)) v) as [c1|] eqn:Hw; [cbn|discriminate].
      intros Hrest. apply IH in Hrest. apply writeCell_nat in Hw as [_ ->].
      now rewrite length_insert in Hrest.
    + destruct (writeCell cells (Z.of_nat (S j)) None) as [c1|] eqn:Hw; [cbn|discriminate].
      intros Hrest. apply IH in Hrest. apply writeCell_nat in Hw as [_ ->].
      now rewrite length_insert in Hrest.
Qed.

(** What the moving loop has done to the cells after a shift by one. *)
Lemma moveLoop_one_cells (i : nat) :
  forall cells log cells' log',
    moveLoop i 1 cells log = Some (cells', log') ->
    forall j, cells' !! j = if bool_decide (1 <= j <= i)%nat
                            then cells !! (j - 1)%nat else cells !! j.
Proof.
  induction i as [|k IH]; intros cells log cells' log'.
  - intros [= <- _] j. rewrite bool_decide_eq_false_2 by lia. reflexivity.
  - cbn [moveLoop]. destruct (Z.geb_spec (Z.of_nat (S k)) 1) as [_|Hlt]; [|lia].
    replace (Z.of_nat (S k) - 1) with (Z.of_nat k) by lia. rewrite readCell_nat.
    destruct (cells !! k) as [v|] eqn:Hv; [cbn|discriminate].
    destruct (writeCell cells (Z.of_nat (S k)) v) as [c1|] eqn:Hw; [cbn|discriminate].
    apply writeCell_nat in Hw as [Hlen ->].
    intros Hrest j. rewrite (IH _ _ _ _ Hrest j).
    destruct (decide (j = S k)) as [->|Hne].
    + rewrite bool_decide_eq_false_2 by lia. rewrite bool_decide_eq_true_2 by lia.
      rewrite list_lookup_insert_eq by assumption.
      replace (S k - 1)%nat with k by lia. now rewrite Hv.
    + destruct (decide (1 <= j <= k)%nat) as [Hin|Hout].
      * rewrite !bool_decide_eq_true_2 by lia.
        now rewrite list_lookup_insert_ne by lia.
      * rewrite !bool_decide_eq_false_2 by lia.
        now rewrite list_lookup_insert_ne by lia.
Qed.

(** Inside the block the moving loop for a shift by one runs to its end. *)
Lemma moveLoop_one_total (i : nat) :
  forall cells log,
    (i < length cells)%nat ->
    exists cells' log', moveLoop i 1 cells log = Some (cells', log').
Proof.
  induction i as [|k IH]; intros cells log Hlen.
  - now exists cells, log.
  - destruct (lookup_lt_is_Some_2 cells k) as [v Hv]; [lia|].
    rewrite (moveLoop_turn k cells log v Hv Hlen).
    apply IH. rewrite length_insert. lia.
Qed.

(** A shift by zero copies every cell onto itself. *)
Lemma moveLoop_zero (i : nat) :
  forall cells log,
    (i < length cells)%nat ->
    exists log', moveLoop i 0 cells log = Some (cells, log').
Proof.
  induction i as [|k IH]; intros cells log Hlen.
  - now exists log.
  - cbn [moveLoop]. destruct (Z.geb_spec (Z.of_nat (S k)) 0) as [_|Hlt]; [|lia].
    replace (Z.of_nat (S k) - 0) with (Z.of_nat (S k)) by lia. rewrite readCell_nat.
    destruct (lookup_lt_is_Some_2 cells (S k)) as [v Hv]; [lia|].
    rewrite Hv. cbn. rewrite writeCell_in_range by lia. cbn.
    rewrite list_insert_id by assumption. apply IH. lia.
Qed.

(** Below [n] the moving loop writes NULL into every cell it visits. *)
Lemma moveLoop_clear (n : Z) (i : nat) :
  forall cells log,
    Z.of_nat i < n -> (i < length cells)%nat ->
    exists cells' log',
      moveLoop i n cells log = Some (cells', log')
      /\ forall j, cells' !! j = if bool_decide (1 <= j <= i)%nat
                                 then Some None else cells !! j.
Proof.
  induction i as [|k IH]; intros cells log Hn Hlen.
  - exists cells, log. split; [reflexivity|]. intros j.
    now rewrite bool_decide_eq_false_2 by lia.
  - cbn [moveLoop]. destruct (Z.geb_spec (Z.of_nat (S k)) n) as [Hge|_]; [lia|].
    rewrite writeCell_in_range by lia. cbn.
    destruct (IH (<[S k := None]> cells) (log ++ [Wr (Z.of_nat (S k))]))
      as (cells' & log' & Hrun & Hcells); [lia | rewrite length_insert; lia |].
    exists cells', log'. split; [exact Hrun|]. intros j. rewrite Hcells.
    destruct (decide (j = S k)) as [->|Hne].
    + rewrite (bool_decide_eq_false_2 (1 <= S k <= k)%nat) by lia.
      rewrite (bool_decide_eq_true_2 (1 <= S k <= S k)%nat) by lia.
      now rewrite list_lookup_insert_eq by assumption.
    + destruct (decide (1 <= j <= k)%nat).
      * now rewrite !bool_decide_eq_true_2 by lia.
      * rewrite !bool_decide_eq_false_2 by lia.
        now rewrite list_lookup_insert_ne by lia.
Qed.

(** The counting loop stops at once when its variable is not above the
    bound. *)
Lemma countLoop_stop (i : nat) (bound : Z) (cells : list ptr) (h : store)
  (log : list access) :
  Z.of_nat i <= bound -> countLoop i bound cells h log = Some (h, log).
Proof.
  intros Hle. destruct i as [|j]; cbn [countLoop].
  - destruct (Z.gtb_spec (Z.of_nat 0) bound) as [Hgt|_]; [lia | reflexivity].
  - destruct (Z.gtb_spec (Z.of_nat (S j)) bound) as [Hgt|_]; [lia | reflexivity].
Qed.

(** For a shift by one from a last slot other than slot 0 it reads the last
    slot, counts its occupant and stops. *)
Lemma countLoop_one (j : nat) (cells : list ptr) (h : store) (log : list access) :
  countLoop (S j) (Z.of_nat j) cells h log
  = match cells !! S j with
    | Some it =>
        match match it with
              | Some a => update incrementNumberCollected a h
              | None => Some h
              end with
        | Some h' => Some (h', log ++ [Rd (Z.of_nat (S j))])
        | None => None
        end
    | None => None
    end.
Proof.
  cbn [countLoop]. destruct (Z.gtb_spec (Z.of_nat (S j)) (Z.of_nat j)) as [_|Hle]; [|lia].
  rewrite readCell_nat. destruct (cells !! S j) as [it|]; [cbn|reflexivity].
  destruct (match it with
            | Some a => update incrementNumberCollected a h
            | None => Some h
            end) as [h1|]; [cbn|reflexivity].
  apply countLoop_stop. lia.
Qed.

End ShiftFacts.

Section ShiftClaims.
Import Core.

(** X8: on a belt of N slots, 2 <= N, a shift by one counts the occupant of
    the exit slot N-1 once (nothing for a NULL slot), moves the contents of
    every slot i < N to cell i+1, leaves slot 0 and the cells past N as they
    were, keeps the size of the block, and marks every worker as not having
    worked, with the probability space back at 1.0. *)
Theorem advanceBelt_shifts_by_one (h : store) (b : Belt) (exit : ptr) :
  2 <= numberOfSlots b < 2 ^ 31 ->
  (Z.to_nat (numberOfSlots b) < length (beltSlots b))%nat ->
  beltSlots b !! Z.to_nat (numberOfSlots b - 1) = Some exit ->
  (forall a, exit = Some a -> is_Some (h !! a)) ->
  exists h' b' log,
    advanceBelt 1 h b = Some (h', b', log)
    /\ match exit with
       | Some a => update incrementNumberCollected a h = Some h'
       | None => h' = h
       end
    /\ length (beltSlots b') = length (beltSlots b)
    /\ (forall j,
          beltSlots b' !! j
          = if bool_decide (1 <= j <= Z.to_nat (numberOfSlots b))%nat
            then beltSlots b !! (j - 1)%nat else beltSlots b !! j)
    /\ workers b' = map (setHasDoneWork false) (workers b)
    /\ currentWorkerMaxProbability b' = fone
    /\ numberOfSlots b' = numberOfSlots b.
Proof.
  intros [Hlo Hhi] Hlen Hexit Hlive.
  assert (Hlast : u32 (numberOfSlots b - 1) = numberOfSlots b - 1)
    by (unfold u32; apply Z.mod_small; lia).
  assert (Hbound : u32 (numberOfSlots b - 1 - 1)
                   = Z.of_nat (Z.to_nat (numberOfSlots b - 2)))
    by (unfold u32; rewrite Z.mod_small by lia; lia).
  assert (Hsucc : Z.to_nat (numberOfSlots b - 1) = S (Z.to_nat (numberOfSlots b - 2)))
    by lia.
  rewrite Hsucc in Hexit.
  assert (Hcount : exists h',
             match exit with
             | Some a => update incrementNumberCollected a h
             | None => Some h
             end = Some h'
             /\ match exit with
                | Some a => update incrementNumberCollected a h = Some h'
                | None => h' = h
                end).
  { destruct exit as [a|].
    - destruct (Hlive a eq_refl) as [ita Ha]. unfold update. rewrite Ha. cbn. eauto.
    - eauto. }
  destruct Hcount as (h' & Hcount & Hh').
  destruct (moveLoop_one_total (Z.to_nat (numberOfSlots b)) (beltSlots b)
              ([] ++ [Rd (Z.of_nat (S (Z.to_nat (numberOfSlots b - 2))))]) Hlen)
    as (cells' & log' & Hmove).
  exists h',
    (mkBelt (numberOfSlots b) (map (setHasDoneWork false) (workers b))
            (itemsToMake b) (finishedItems b) (totalItemWeighting b)
            (totalWorkerWeighting b) fone cells'),
    log'.
  split.
  { unfold advanceBelt. rewrite Hlast, Hbound, Hsucc.
    destruct (Z.ltb_spec (numberOfSlots b - 1) (2 ^ 31)); [|lia].
    destruct (Z.ltb_spec (numberOfSlots b) (2 ^ 31)); [|lia].
    rewrite countLoop_one. unfold ptr in *. rewrite Hexit.
    rewrite Hcount. cbn [mbind option_bind]. rewrite Hmove. reflexivity. }
  cbn [beltSlots workers currentWorkerMaxProbability numberOfSlots].
  split; [exact Hh'|]. split; [now apply moveLoop_length in Hmove|].
  split; [now apply (moveLoop_one_cells _ _ _ _ _ Hmove)|]. now repeat split.
Qed.

Lemma advanceBelt_shifts_by_one_witness :
  exists h' b' log,
    advanceBelt 1 Reference.objects Reference.loadedBelt = Some (h', b', log)
    /\ update incrementNumberCollected Reference.itemB Reference.objects = Some h'
    /\ length (beltSlots b') = length (beltSlots Reference.loadedBelt)
    /\ (forall j,
          beltSlots b' !! j
          = if bool_decide (1 <= j <= Z.to_nat (numberOfSlots Reference.loadedBelt))%nat
            then beltSlots Reference.loadedBelt !! (j - 1)%nat
            else beltSlots Reference.loadedBelt !! j)
    /\ workers b' = map (setHasDoneWork false) (workers Reference.loadedBelt)
    /\ currentWorkerMaxProbability b' = fone
    /\ numberOfSlots b' = numberOfSlots Reference.loadedBelt.
Proof.
  apply (advanceBelt_shifts_by_one Reference.objects Reference.loadedBelt
           (Some Reference.itemB)).
  - vm_compute. split; [discriminate | reflexivity].
  - vm_compute. lia.
  - reflexivity.
  - intros a [= <-]. vm_compute. eauto.
Defined.

(** X9: a shift by zero counts nothing and leaves every cell as it is; it
    only marks the workers as not having worked and sets the probability
    space to 1.0. *)
Theorem advanceBelt_by_zero (h : store) (b : Belt) :
  1 <= numberOfSlots b < 2 ^ 31 ->
  (Z.to_nat (numberOfSlots b) < length (beltSlots b))%nat ->
  exists log,
    advanceBelt 0 h b
    = Some (h,
            mkBelt (numberOfSlots b) (map (setHasDoneWork false) (workers b))
                   (itemsToMake b) (finishedItems b) (totalItemWeighting b)
                   (totalWorkerWeighting b) fone (beltSlots b),
            log).
Proof.
  intros [Hlo Hhi] Hlen.
  assert (Hlast : u32 (numberOfSlots b - 1) = numberOfSlots b - 1)
    by (unfold u32; apply Z.mod_small; lia).
  destruct (moveLoop_zero (Z.to_nat (numberOfSlots b)) (beltSlots b) [] Hlen)
    as (log' & Hmove).
  exists log'. unfold advanceBelt. rewrite Hlast.
  replace (numberOfSlots b - 1 - 0) with (numberOfSlots b - 1) by lia. rewrite Hlast.
  destruct (Z.ltb_spec (numberOfSlots b - 1) (2 ^ 31)); [|lia].
  destruct (Z.ltb_spec (numberOfSlots b) (2 ^ 31)); [|lia].
  rewrite countLoop_stop by lia. cbn [mbind option_bind].
  rewrite Hmove. reflexivity.
Qed.

Lemma advanceBelt_by_zero_witness :
  exists log,
    advanceBelt 0 Reference.objects Reference.loadedBelt
    = Some (Reference.objects,
            mkBelt (numberOfSlots Reference.loadedBelt)
                   (map (setHasDoneWork false) (workers Reference.loadedBelt))
                   (itemsToMake Reference.loadedBelt) (finishedItems Reference.loadedBelt)
                   (totalItemWeighting Reference.loadedBelt)
                   (totalWorkerWeighting Reference.loadedBelt) fone
                   (beltSlots Reference.loadedBelt),
            log).
Proof.
  apply (advanceBelt_by_zero Reference.objects Reference.loadedBelt).
  - vm_compute. split; discriminate || reflexivity.
  - vm_compute. lia.
Defined.

(** X10: a shift by [n] slots on a belt of no more than [n] slots counts
    nothing, although it empties the slots 1..N-1: the counting loop
    compares with [lastSlot - n] in unsigned arithmetic, where it is a
    large number.  In particular a belt of one slot never counts an item.
    Slot 0 is left as it was. *)
Theorem advanceBelt_beyond_length (h : store) (b : Belt) (n : Z) :
  1 <= numberOfSlots b <= n ->
  n < 2 ^ 31 ->
  (Z.to_nat (numberOfSlots b) < length (beltSlots b))%nat ->
  exists b' log,
    advanceBelt n h b = Some (h, b', log)
    /\ (forall j, (1 <= j < Z.to_nat (numberOfSlots b))%nat ->
          beltSlots b' !! j = Some None)
    /\ beltSlots b' !! 0%nat = beltSlots b !! 0%nat.
Proof.
  intros [Hlo Hn] Hhi Hlen.
  assert (Hlast : u32 (numberOfSlots b - 1) = numberOfSlots b - 1)
    by (unfold u32; apply Z.mod_small; lia).
  assert (Hbound : u32 (numberOfSlots b - 1 - n) = 2 ^ 32 + (numberOfSlots b - 1 - n)).
  { unfold u32.
    replace (numberOfSlots b - 1 - n)
      with ((2 ^ 32 + (numberOfSlots b - 1 - n)) + (-1) * 2 ^ 32) at 1 by lia.
    rewrite Z.mod_add by lia. apply Z.mod_small. lia. }
  assert (Hmove : exists cells' log',
             moveLoop (Z.to_nat (numberOfSlots b)) n (beltSlots b) [] = Some (cells', log')
             /\ (forall j, (1 <= j < Z.to_nat (numberOfSlots b))%nat ->
                   cells' !! j = Some None)
             /\ cells' !! 0%nat = beltSlots b !! 0%nat).
  { destruct (Z.to_nat (numberOfSlots b)) as [|k] eqn:Hk; [lia|].
    destruct (decide (numberOfSlots b = n)) as [Heq|Hne].
    - cbn [moveLoop]. destruct (Z.geb_spec (Z.of_nat (S k)) n) as [_|Hlt]; [|lia].
      replace (Z.of_nat (S k) - n) with (Z.of_nat 0) by lia. rewrite readCell_nat.
      destruct (lookup_lt_is_Some_2 (beltSlots b) 0) as [v0 Hv0]; [lia|].
      rewrite Hv0. cbn [mbind option_bind]. rewrite writeCell_in_range by lia.
      cbn [mbind option_bind].
      destruct (moveLoop_clear n k (<[S k := v0]> (beltSlots b))
                  ([] ++ [Rd (Z.of_nat 0); Wr (Z.of_nat (S k))]))
        as (cells' & log' & Hrun & Hcells); [lia | rewrite length_insert; lia |].
      exists cells', log'. split; [exact Hrun|]. split.
      + intros j Hj. rewrite Hcells. now rewrite bool_decide_eq_true_2 by lia.
      + rewrite Hcells. rewrite bool_decide_eq_false_2 by lia.
        now rewrite list_lookup_insert_ne by lia.
    - destruct (moveLoop_clear n (S k) (beltSlots b) [])
        as (cells' & log' & Hrun & Hcells); [lia | lia |].
      exists cells', log'. split; [exact Hrun|]. split.
      + intros j Hj. rewrite Hcells. now rewrite bool_decide_eq_true_2 by lia.
      + rewrite Hcells. now rewrite bool_decide_eq_false_2 by lia. }
  destruct Hmove as (cells' & log' & Hmove & Hcleared & Hentry).
  exists (mkBelt (numberOfSlots b) (map (setHasDoneWork false) (workers b))
                 (itemsToMake b) (finishedItems b) (totalItemWeighting b)
                 (totalWorkerWeighting b) fone cells'),
    log'.
  split; [|now split].
  unfold advanceBelt. rewrite Hlast, Hbound.
  destruct (Z.ltb_spec (numberOfSlots b - 1) (2 ^ 31)); [|lia].
  destruct (Z.ltb_spec (numberOfSlots b) (2 ^ 31)); [|lia].
  rewrite countLoop_stop by lia. cbn [mbind option_bind].
  rewrite Hmove. reflexivity.
Qed.

Lemma advanceBelt_beyond_length_witness :
  exists b' log,
    advanceBelt 5 Reference.objects Reference.loadedBelt
      = Some (Reference.objects, b', log)
    /\ (forall j, (1 <= j < Z.to_nat (numberOfSlots Reference.loadedBelt))%nat ->
          beltSlots b' !! j = Some None)
    /\ beltSlots b' !! 0%nat = beltSlots Reference.loadedBelt !! 0%nat.
Proof.
  apply (advanceBelt_beyond_length Reference.objects Reference.loadedBelt 5).
  - vm_compute. split; discriminate.
  - reflexivity.
  - vm_compute. lia.
Defined.

End ShiftClaims.

(** ** More about [ProductionLine::runSim] *)

Section StepFacts.
Import Core.

Variable rng : random_source.

(** The parts of a completed turn of the loop. *)
Lemma step_parts (s s' : Sim) :
  step rng s = (Completed, s') ->
  exists next h1 b1 log b2 k b3 wk it w1 newIt b4,
    getNextItem (heap s) (belt s) (rng (drawn s)) = Some (Some next)
    /\ advanceBelt 1 (heap s) (belt s) = Some (h1, b1, log)
    /\ setSlot (Some next) 0 b1 = Some b2
    /\ getNextWorker b2 (rng (S (drawn s))) = (Some k, b3)
    /\ workers b3 !! k = Some wk
    /\ getSlot b3 (position wk) = Some it
    /\ doWork h1 wk it (getFinishedItems b3) = Some (w1, newIt)
    /\ setSlot newIt (position wk) (setWorkers (<[k := w1]> (workers b3)) b3) = Some b4
    /\ s' = mkSim h1 b4 (S (S (drawn s))) (activations s ++ [k]).
Proof.
  unfold step.
  destruct (getNextItem (heap s) (belt s) (rng (drawn s))) as [[next|]|] eqn:Hitem;
    [|discriminate|discriminate].
  destruct (advanceBelt 1 (heap s) (belt s)) as [[[h1 b1] log]|] eqn:Hadv;
    [cbn|discriminate].
  destruct (setSlot (Some next) 0 b1) as [b2|] eqn:Hset; [cbn|discriminate].
  destruct (getNextWorker b2 (rng (S (drawn s)))) as [[k|] b3] eqn:Hnext;
    [cbn|discriminate].
  destruct (workers b3 !! k) as [wk|] eqn:Hwk; [cbn|discriminate].
  destruct (getSlot b3 (position wk)) as [it|] eqn:Hget; [cbn|discriminate].
  destruct (doWork h1 wk it (getFinishedItems b3)) as [[w1 newIt]|] eqn:Hwork;
    [cbn|discriminate].
  destruct (setSlot newIt (position wk) (setWorkers (<[k:=w1]> (workers b3)) b3))
    as [b4|] eqn:Hset2; [cbn|discriminate].
  intros [= <-]. exists next, h1, b1, log, b2, k, b3, wk, it, w1, newIt, b4.
  now repeat split.
Qed.

(** What [setSlot] and [getNextWorker] leave alone. *)
Lemma setSlot_cells (it : ptr) (slot : Z) (b b' : Belt) :
  setSlot it slot b = Some b' ->
  0 <= slot
  /\ (Z.to_nat slot < length (beltSlots b))%nat
  /\ b' = setBeltSlots (<[Z.to_nat slot := it]> (beltSlots b)) b.
Proof.
  unfold setSlot, writeCell.
  destruct (Z.leb_spec 0 slot); [|discriminate].
  destruct (Z.ltb_spec slot (Z.of_nat (length (beltSlots b)))); cbn; [|discriminate].
  intros [= <-]. repeat split; try lia.
Qed.

Lemma getNextWorker_frame (b b' : Belt) (p : probability) (k : option nat) :
  getNextWorker b p = (k, b') ->
  exists space, b' = setCurrentWorkerMaxProbability space b.
Proof.
  unfold getNextWorker.
  destruct (selectWorker _ _ _ _) as [k1|].
  - destruct (workers b !! k1); intros [= _ <-]; eauto.
    exists (currentWorkerMaxProbability b). now destruct b.
  - intros [= _ <-]. exists (currentWorkerMaxProbability b). now destruct b.
Qed.

(** [doWork] leaves the position, the weighting and the share of the worker
    alone and sets its flag. *)
Lemma doWork_identity (h : store) (w w' : Worker) (it fin out : ptr) :
  doWork h w it fin = Some (w', out) ->
  position w' = position w /\ workerWeight w' = workerWeight w
  /\ workProbability w' = workProbability w /\ doneWork w' = true.
Proof.
  intros Hrun.
  destruct (Z.ltb_spec 0 (amAssembling w)) as [Hpos|Hle].
  - rewrite doWork_counting in Hrun by assumption. injection Hrun as <- _. now cbn.
  - rewrite doWork_idle in Hrun by assumption.
    destruct (takeFromSlot h (setHasDoneWork true w) it it) as [[w1 o1]|] eqn:Ht;
      [cbn in Hrun|discriminate].
    destruct (startAssembling h w1 fin) as [w2|] eqn:Hs; [cbn in Hrun|discriminate].
    injection Hrun as <- _.
    assert (H1 : position w1 = position w /\ workerWeight w1 = workerWeight w
                 /\ workProbability w1 = workProbability w /\ doneWork w1 = true).
    { unfold takeFromSlot in Ht.
      destruct (slotIsEmpty h it) as [[|]|]; cbn in Ht; try discriminate.
      - injection Ht as <- _. now cbn.
      - injection Ht as Ht.
        destruct (fillHands_cases (setHasDoneWork true w) it it)
          as [Hfill | [(_ & _ & Hfill) | (_ & _ & _ & Hfill)]];
          rewrite Hfill in Ht; injection Ht as <- _; now cbn. }
    unfold startAssembling in Hs.
    destruct (leftHand w1), (rightHand w1); try (injection Hs as <-; exact H1).
    destruct fin as [ft|]; [cbn in Hs|discriminate].
    destruct (assemble h ft [a; a0]) as [[made|]|]; cbn in Hs; try discriminate;
      injection Hs as <-; exact H1.
Qed.

(** The selected worker of the adjusted belt. *)
Lemma getNextWorker_selected (b b' : Belt) (p : probability) (k : nat) :
  getNextWorker b p = (Some k, b') ->
  exists wk, workers b !! k = Some wk /\ doneWork wk = false
             /\ currentWorkerMaxProbability b'
                = fsub (currentWorkerMaxProbability b) (workProbability wk).
Proof.
  unfold getNextWorker.
  destruct (selectWorker (fmul p (currentWorkerMaxProbability b)) fzero (workers b) 0)
    as [k1|] eqn:Hsel; [|discriminate].
  apply selectWorker_unselected in Hsel as (j & wj & -> & Hj & Hdone).
  cbn [Nat.add]. rewrite Hj. intros [= <- <-]. exists wj. now repeat split.
Qed.

(** A shift by one counts at most the occupant of the last slot. *)
Lemma advanceBelt_counts_one (h h' : store) (b b' : Belt) (log : list access) :
  advanceBelt 1 h b = Some (h', b', log) ->
  h' = h
  \/ exists a, getSlot b (u32 (numberOfSlots b - 1)) = Some (Some a)
               /\ update incrementNumberCollected a h = Some h'.
Proof.
  unfold advanceBelt. set (L := u32 (numberOfSlots b - 1)).
  assert (HL : 0 <= L < 2 ^ 32) by (apply Z.mod_pos_bound; lia).
  destruct (if L <? 2 ^ 31 then _ else _) as [[h1 log1]|] eqn:Hcount;
    [cbn|discriminate].
  destruct (if numberOfSlots b <? 2 ^ 31 then _ else _) as [[cells log2]|];
    [cbn|discriminate].
  intros [= <- _ _].
  destruct (Z.ltb_spec L (2 ^ 31)).
  - destruct (Z.to_nat L) as [|j] eqn:HLn.
    + assert (L = 0) by lia.
      rewrite countLoop_stop in Hcount.
      * injection Hcount as <- _. now left.
      * replace (L - 1) with (-1) by lia. now vm_compute.
    + replace (u32 (L - 1)) with (Z.of_nat j) in Hcount
        by (unfold u32; rewrite Z.mod_small by lia; lia).
      rewrite countLoop_one in Hcount.
      match type of Hcount with
      | match ?c with _ => _ end = _ =>
          assert (Hget : getSlot b L = c)
            by (unfold getSlot; replace L with (Z.of_nat (S j)) by lia;
                apply readCell_nat);
          destruct c as [[a|]|]; try discriminate
      end.
      * destruct (update incrementNumberCollected a h) as [h2|] eqn:Hup;
          [|discriminate].
        injection Hcount as <- _. right. exists a. now split.
      * injection Hcount as <- _. now left.
  - destruct (L >? u32 (L - 1)); [discriminate|]. injection Hcount as <- _. now left.
Qed.

(** Its cells, for a belt whose number of slots is a positive [int]. *)
Lemma advanceBelt_cells (h h' : store) (b b' : Belt) (log : list access) :
  numberOfSlots b < 2 ^ 31 ->
  advanceBelt 1 h b = Some (h', b', log) ->
  length (beltSlots b') = length (beltSlots b)
  /\ forall j,
       beltSlots b' !! j
       = if bool_decide (1 <= j <= Z.to_nat (numberOfSlots b))%nat
         then beltSlots b !! (j - 1)%nat else beltSlots b !! j.
Proof.
  intros Hhi. unfold advanceBelt.
  destruct (if u32 (numberOfSlots b - 1) <? 2 ^ 31 then _ else _) as [[h1 log1]|];
    [cbn|discriminate].
  destruct (Z.ltb_spec (numberOfSlots b) (2 ^ 31)); [|lia].
  destruct (moveLoop (Z.to_nat (numberOfSlots b)) 1 (beltSlots b) log1)
    as [[cells log2]|] eqn:Hmove; [cbn|discriminate].
  intros [= _ <- _]. cbn. split.
  - now apply moveLoop_length in Hmove.
  - now apply (moveLoop_one_cells _ _ _ _ _ Hmove).
Qed.

Lemma advanceBelt_frame (n : Z) (h h' : store) (b b' : Belt) (log : list access) :
  advanceBelt n h b = Some (h', b', log) ->
  numberOfSlots b' = numberOfSlots b /\ itemsToMake b' = itemsToMake b
  /\ totalItemWeighting b' = totalItemWeighting b
  /\ totalWorkerWeighting b' = totalWorkerWeighting b
  /\ currentWorkerMaxProbability b' = fone
  /\ length (beltSlots b') = length (beltSlots b).
Proof.
  unfold advanceBelt.
  destruct (if u32 (numberOfSlots b - 1) <? 2 ^ 31 then _ else _) as [[h1 log1]|];
    [cbn|discriminate].
  destruct (if numberOfSlots b <? 2 ^ 31 then _ else _) as [[cells log2]|] eqn:Hmove;
    [cbn|discriminate].
  intros [= _ <- _]. cbn. repeat split.
  destruct (numberOfSlots b <? 2 ^ 31).
  - now apply moveLoop_length in Hmove.
  - now injection Hmove as <- _.
Qed.

End StepFacts.

Section RunMoreFacts.
Import Core.

Variable rng : random_source.

(** The fields of the belt that a completed turn of the loop leaves alone, and
    the two draws it takes. *)
Lemma step_configuration (s s' : Sim) :
  step rng s = (Completed, s') ->
  drawn s' = S (S (drawn s))
  /\ numberOfSlots (belt s') = numberOfSlots (belt s)
  /\ itemsToMake (belt s') = itemsToMake (belt s)
  /\ totalItemWeighting (belt s') = totalItemWeighting (belt s)
  /\ totalWorkerWeighting (belt s') = totalWorkerWeighting (belt s)
  /\ length (beltSlots (belt s')) = length (beltSlots (belt s)).
Proof.
  intros Hstep.
  apply step_parts in Hstep
    as (next & h1 & b1 & log & b2 & k & b3 & wk & it & w1 & newIt & b4
        & _ & Hadv & Hset & Hnext & _ & _ & _ & Hset2 & ->).
  apply advanceBelt_frame in Hadv as (Hn & Hitems & Hiw & Hww & _ & Hlen).
  apply setSlot_cells in Hset as (_ & _ & ->).
  apply getNextWorker_frame in Hnext as (space & ->).
  apply setSlot_cells in Hset2 as (_ & _ & ->).
  cbn. rewrite !length_insert. now rewrite Hn, Hitems, Hiw, Hww, Hlen.
Qed.

Lemma runSim_workers_length (steps : nat) :
  forall s s',
    runSim rng steps s = (Completed, s') ->
    length (workers (belt s')) = length (workers (belt s)).
Proof.
  induction steps as [|k IH]; intros s s'.
  - cbn. now intros [= <-].
  - cbn [runSim]. destruct (step rng s) as [[ | | ] s1] eqn:Hstep; try discriminate.
    intros Hrun. apply IH in Hrun.
    apply step_completed in Hstep as (j & _ & _ & Hlen). congruence.
Qed.

(** Along its life a worker keeps its position, its weighting and its share. *)
Lemma evolves_identity (h : store) (fin : ptr) (w w' : Worker) :
  Life.evolves h fin w w' ->
  position w' = position w /\ workerWeight w' = workerWeight w
  /\ workProbability w' = workProbability w.
Proof.
  induction 1 as [w | w w1 w2 h1 it out _ Hrun _ IH | w w2 _ IH].
  - now repeat split.
  - apply doWork_identity in Hrun as (Hp & Hw & Hq & _).
    destruct IH as (-> & -> & ->). now repeat split.
  - exact IH.
Qed.

End RunMoreFacts.

Section RunMoreClaims.
Import Core.

(** X11: a completed turn of the loop of [ProductionLine::runSim] counts at
    most one item: either the store of item types is unchanged, or the last
    slot of the belt held an item type before the turn and the turn has
    incremented the collected counter of that one type, once, and changed
    nothing else in the store. *)
Theorem step_counts_exit_item (rng : random_source) (s s' : Sim) :
  step rng s = (Completed, s') ->
  heap s' = heap s
  \/ exists a item,
       getSlot (belt s) (u32 (numberOfSlots (belt s) - 1)) = Some (Some a)
       /\ heap s !! a = Some item
       /\ heap s' = <[a := incrementNumberCollected item]> (heap s).
Proof.
  intros Hstep.
  apply step_parts in Hstep
    as (next & h1 & b1 & log & b2 & k & b3 & wk & it & w1 & newIt & b4
        & _ & Hadv & _ & _ & _ & _ & _ & _ & ->).
  cbn. apply advanceBelt_counts_one in Hadv as [-> | (a & Hget & Hup)]; [now left|].
  right. unfold update in Hup.
  destruct (heap s !! a) as [item|] eqn:Ha; [cbn in Hup|discriminate].
  injection Hup as <-. exists a, item. now repeat split.
Qed.

Lemma step_counts_exit_item_witness :
  heap Reference.loadedAfterOne = heap Reference.loaded
  \/ exists a item,
       getSlot (belt Reference.loaded)
               (u32 (numberOfSlots (belt Reference.loaded) - 1)) = Some (Some a)
       /\ heap Reference.loaded !! a = Some item
       /\ heap Reference.loadedAfterOne
          = <[a := incrementNumberCollected item]> (heap Reference.loaded).
Proof.
  apply (step_counts_exit_item (fun _ => Reference.half)).
  vm_compute. reflexivity.
Defined.

(** X12: after a completed turn of the loop exactly one worker has its
    [doneWork] flag set, the one that was activated; every other worker of the
    chain is unselected, and the probability space left for a next selection is
    1.0 less the share of the activated worker. *)
Theorem step_marks_activated_worker (rng : random_source) (s s' : Sim) :
  step rng s = (Completed, s') ->
  exists k wk,
    activations s' = activations s ++ [k]
    /\ workers (belt s') !! k = Some wk
    /\ (forall j wj, workers (belt s') !! j = Some wj ->
                     doneWork wj = bool_decide (j = k))
    /\ currentWorkerMaxProbability (belt s') = fsub fone (workProbability wk).
Proof.
  intros Hstep.
  apply step_parts in Hstep
    as (next & h1 & b1 & log & b2 & k & b3 & wk & it & w1 & newIt & b4
        & _ & Hadv & Hset & Hnext & Hwk & _ & Hwork & Hset2 & ->).
  pose proof (advanceBelt_frame _ _ _ _ _ _ Hadv) as (_ & _ & _ & _ & Hone & _).
  apply advanceBelt_effect in Hadv as (_ & Hreset & _).
  apply setSlot_cells in Hset as (_ & _ & Hb2).
  pose proof (getNextWorker_frame _ _ _ _ Hnext) as (space & Hb3).
  apply getNextWorker_selected in Hnext as (wk0 & Hwk0 & _ & Hspace).
  apply setSlot_cells in Hset2 as (_ & _ & Hb4).
  apply doWork_identity in Hwork as (_ & _ & Hshare & Hdone).
  assert (Hw2 : workers b2 = map (setHasDoneWork false) (workers (belt s)))
    by (rewrite Hb2; exact Hreset).
  assert (Hw3 : workers b3 = workers b2) by (rewrite Hb3; reflexivity).
  assert (Hw4 : workers b4 = <[k := w1]> (workers b3)) by (rewrite Hb4; reflexivity).
  assert (Hp2 : currentWorkerMaxProbability b2 = fone) by (rewrite Hb2; exact Hone).
  assert (Hp4 : currentWorkerMaxProbability b4 = currentWorkerMaxProbability b3)
    by (rewrite Hb4; reflexivity).
  assert (Hsame : wk0 = wk) by (rewrite Hw3 in Hwk; congruence). subst wk0.
  clear Hb2 Hb3 Hb4.
  exists k, w1. cbn. repeat split.
  - rewrite Hw4. apply list_lookup_insert_eq. now apply lookup_lt_Some in Hwk.
  - intros j wj. rewrite Hw4. destruct (decide (j = k)) as [->|Hne].
    + rewrite list_lookup_insert_eq by now apply lookup_lt_Some in Hwk.
      intros [= <-]. now rewrite bool_decide_eq_true_2.
    + rewrite list_lookup_insert_ne by congruence.
      rewrite Hw3, Hw2, list_lookup_fmap.
      destruct (workers (belt s) !! j); [cbn|discriminate].
      intros [= <-]. now rewrite bool_decide_eq_false_2.
  - now rewrite Hp4, Hspace, Hp2, Hshare.
Qed.

Lemma step_marks_activated_worker_witness :
  exists k wk,
    activations Reference.loadedAfterOne = activations Reference.loaded ++ [k]
    /\ workers (belt Reference.loadedAfterOne) !! k = Some wk
    /\ (forall j wj, workers (belt Reference.loadedAfterOne) !! j = Some wj ->
                     doneWork wj = bool_decide (j = k))
    /\ currentWorkerMaxProbability (belt Reference.loadedAfterOne)
       = fsub fone (workProbability wk).
Proof.
  apply (step_marks_activated_worker (fun _ => Reference.half)).
  vm_compute. reflexivity.
Defined.

(** X13: a completed run of [runSim] over any number of steps leaves the
    configuration of the line alone: it takes two draws for each step, and the
    number of slots, the registry of item types and its total weighting, the
    finished product, the total weighting of the workers, the size of the block
    of slots and the number of workers are those of the start; no kind of item
    is created, lost or changed in its recipe; and every worker keeps its
    position, its weighting and its share of the probability space. *)
Theorem runSim_keeps_configuration (rng : random_source) (steps : nat) :
  forall s s',
    runSim rng steps s = (Completed, s') ->
    drawn s' = (drawn s + 2 * steps)%nat
    /\ numberOfSlots (belt s') = numberOfSlots (belt s)
    /\ itemsToMake (belt s') = itemsToMake (belt s)
    /\ finishedItems (belt s') = finishedItems (belt s)
    /\ totalItemWeighting (belt s') = totalItemWeighting (belt s)
    /\ totalWorkerWeighting (belt s') = totalWorkerWeighting (belt s)
    /\ length (beltSlots (belt s')) = length (beltSlots (belt s))
    /\ length (workers (belt s')) = length (workers (belt s))
    /\ Life.sameKinds (heap s) (heap s')
    /\ forall j w w',
         workers (belt s) !! j = Some w -> workers (belt s') !! j = Some w' ->
         position w' = position w /\ workerWeight w' = workerWeight w
         /\ workProbability w' = workProbability w.
Proof.
  intros s s' Hrun.
  pose proof (runSim_workers_length rng steps s s' Hrun) as Hlen.
  pose proof (runSim_evolves rng steps s s' Hrun) as (Hkinds & Hfin & Hlife).
  assert (Hbelt : drawn s' = (drawn s + 2 * steps)%nat
                  /\ numberOfSlots (belt s') = numberOfSlots (belt s)
                  /\ itemsToMake (belt s') = itemsToMake (belt s)
                  /\ totalItemWeighting (belt s') = totalItemWeighting (belt s)
                  /\ totalWorkerWeighting (belt s') = totalWorkerWeighting (belt s)
                  /\ length (beltSlots (belt s')) = length (beltSlots (belt s))).
  { clear Hlen Hkinds Hfin Hlife. revert s s' Hrun.
    induction steps as [|k IH]; intros s s'.
    - cbn. intros [= <-]. repeat split. lia.
    - cbn [runSim]. destruct (step rng s) as [[ | | ] s1] eqn:Hstep; try discriminate.
      intros Hrun. apply IH in Hrun as (Hd & Hn & Hi & Hiw & Hww & Hc).
      apply step_configuration in Hstep as (Hd1 & Hn1 & Hi1 & Hiw1 & Hww1 & Hc1).
      repeat split; try congruence. lia. }
  destruct Hbelt as (Hd & Hn & Hi & Hiw & Hww & Hc).
  repeat split; try assumption.
  all: destruct (Hlife j w H) as (w1 & Hj1 & Hev);
    assert (w1 = w') by congruence; subst w1;
    now apply evolves_identity in Hev.
Qed.

Lemma runSim_keeps_configuration_witness :
  drawn Reference.loadedAfterThree = (drawn Reference.loaded + 2 * 3)%nat
  /\ numberOfSlots (belt Reference.loadedAfterThree)
     = numberOfSlots (belt Reference.loaded)
  /\ itemsToMake (belt Reference.loadedAfterThree) = itemsToMake (belt Reference.loaded)
  /\ finishedItems (belt Reference.loadedAfterThree)
     = finishedItems (belt Reference.loaded)
  /\ totalItemWeighting (belt Reference.loadedAfterThree)
     = totalItemWeighting (belt Reference.loaded)
  /\ totalWorkerWeighting (belt Reference.loadedAfterThree)
     = totalWorkerWeighting (belt Reference.loaded)
  /\ length (beltSlots (belt Reference.loadedAfterThree))
     = length (beltSlots (belt Reference.loaded))
  /\ length (workers (belt Reference.loadedAfterThree))
     = length (workers (belt Reference.loaded))
  /\ Life.sameKinds (heap Reference.loaded) (heap Reference.loadedAfterThree)
  /\ forall j w w',
       workers (belt Reference.loaded) !! j = Some w ->
       workers (belt Reference.loadedAfterThree) !! j = Some w' ->
       position w' = position w /\ workerWeight w' = workerWeight w
       /\ workProbability w' = workProbability w.
Proof.
  apply (runSim_keeps_configuration (fun _ => Reference.half) 3).
  vm_compute. reflexivity.
Defined.

(** X14: on a line without workers no step completes: whenever the draw
    selects an item type, [getNextWorker] returns NULL and [runSim] calls
    [getPosition] through it, so the run has no defined result, for any number
    of steps that is not zero. *)
Theorem runSim_without_workers (rng : random_source) (n : nat) (s : Sim)
  (next : addr) :
  workers (belt s) = [] ->
  getNextItem (heap s) (belt s) (rng (drawn s)) = Some (Some next) ->
  runSim rng (S n) s = (Undefined, s).
Proof.
  intros Hnone Hitem.
  assert (Hstep : step rng s = (Undefined, s)).
  { unfold step. rewrite Hitem.
    destruct (advanceBelt 1 (heap s) (belt s)) as [[[h1 b1] log]|] eqn:Hadv;
      [cbn|reflexivity].
    destruct (setSlot (Some next) 0 b1) as [b2|] eqn:Hset; [cbn|reflexivity].
    apply advanceBelt_effect in Hadv as (_ & Hreset & _).
    apply setSlot_workers in Hset.
    unfold getNextWorker. rewrite Hset, Hreset, Hnone. reflexivity. }
  cbn [runSim]. now rewrite Hstep.
Qed.

Lemma runSim_without_workers_witness :
  runSim (fun _ => Reference.half) 100 Reference.unstaffed
  = (Undefined, Reference.unstaffed).
Proof.
  apply (runSim_without_workers (fun _ => Reference.half) 99 Reference.unstaffed
                                Reference.itemB).
  - vm_compute. reflexivity.
  - vm_compute. reflexivity.
Defined.

(** X15: what one completed turn of the loop does to the belt, for a belt
    whose number of slots [N] is a positive [int].  The drawn item type goes
    into slot 0, the cells 1..N take the former contents of the cells 0..N-1
    and the cells after them are kept; then the activated worker, with its
    flag reset, does its work on what its slot holds by then, and what it
    returns is written back into that slot.  No other cell is touched. *)
Theorem step_moves_belt (rng : random_source) (s s' : Sim) :
  numberOfSlots (belt s) < 2 ^ 31 ->
  step rng s = (Completed, s') ->
  exists next k wk it w1 newIt,
    let moved (j : nat) : option ptr :=
      if bool_decide (j = 0)%nat then Some (Some next)
      else if bool_decide (1 <= j <= Z.to_nat (numberOfSlots (belt s)))%nat
           then beltSlots (belt s) !! (j - 1)%nat
           else beltSlots (belt s) !! j in
    getNextItem (heap s) (belt s) (rng (drawn s)) = Some (Some next)
    /\ activations s' = activations s ++ [k]
    /\ workers (belt s) !! k = Some wk
    /\ 0 <= position wk
    /\ moved (Z.to_nat (position wk)) = Some it
    /\ doWork (heap s') (setHasDoneWork false wk) it (finishedItems (belt s))
       = Some (w1, newIt)
    /\ workers (belt s') !! k = Some w1
    /\ beltSlots (belt s') !! Z.to_nat (position wk) = Some newIt
    /\ forall j, j <> Z.to_nat (position wk) -> beltSlots (belt s') !! j = moved j.
Proof.
  intros Hhi Hstep.
  apply step_parts in Hstep
    as (next & h1 & b1 & log & b2 & k & b3 & wk & it & w1 & newIt & b4
        & Hitem & Hadv & Hset & Hnext & Hwk & Hget & Hwork & Hset2 & ->).
  pose proof (advanceBelt_cells _ _ _ _ _ Hhi Hadv) as (Hlen & Hcells).
  apply advanceBelt_effect in Hadv as (_ & Hreset & Hfin).
  apply setSlot_cells in Hset as (_ & Hin & ->).
  apply getNextWorker_frame in Hnext as (space & ->).
  apply setSlot_cells in Hset2 as (Hpos & Hin2 & ->).
  cbn in *. rewrite Hreset, list_lookup_fmap in Hwk.
  destruct (workers (belt s) !! k) as [wk0|] eqn:Hwk0; [|discriminate].
  injection Hwk as <-. cbn in *.
  rewrite length_insert in Hin2.
  assert (Hmoved : forall j,
            <[0%nat := Some next]> (beltSlots b1) !! j
            = if bool_decide (j = 0)%nat then Some (Some next)
              else if bool_decide (1 <= j <= Z.to_nat (numberOfSlots (belt s)))%nat
                   then beltSlots (belt s) !! (j - 1)%nat
                   else beltSlots (belt s) !! j).
  { intros j. case_bool_decide as Hj.
    - subst j. now apply list_lookup_insert_eq.
    - rewrite list_lookup_insert_ne by congruence. apply Hcells. }
  exists next, k, wk0, it, w1, newIt. cbn zeta.
  repeat split; try assumption; try reflexivity.
  - rewrite <- Hmoved. unfold getSlot in Hget. cbn in Hget.
    rewrite <- Hget. replace (position wk0) with (Z.of_nat (Z.to_nat (position wk0)))
      at 2 by lia.
    symmetry. apply readCell_nat.
  - now rewrite <- Hfin.
  - apply list_lookup_insert_eq. now apply lookup_lt_Some in Hwk0 as Hlt;
      rewrite Hreset, length_map.
  - apply list_lookup_insert_eq. now rewrite length_insert.
  - intros j Hj. rewrite list_lookup_insert_ne by congruence. apply Hmoved.
Qed.

Lemma step_moves_belt_witness :
  exists next k wk it w1 newIt,
    let moved (j : nat) : option ptr :=
      if bool_decide (j = 0)%nat then Some (Some next)
      else if bool_decide
                (1 <= j <= Z.to_nat (numberOfSlots (belt Reference.loaded)))%nat
           then beltSlots (belt Reference.loaded) !! (j - 1)%nat
           else beltSlots (belt Reference.loaded) !! j in
    getNextItem (heap Reference.loaded) (belt Reference.loaded)
                (Reference.half) = Some (Some next)
    /\ activations Reference.loadedAfterOne = activations Reference.loaded ++ [k]
    /\ workers (belt Reference.loaded) !! k = Some wk
    /\ 0 <= position wk
    /\ moved (Z.to_nat (position wk)) = Some it
    /\ doWork (heap Reference.loadedAfterOne) (setHasDoneWork false wk) it
              (finishedItems (belt Reference.loaded))
       = Some (w1, newIt)
    /\ workers (belt Reference.loadedAfterOne) !! k = Some w1
    /\ beltSlots (belt Reference.loadedAfterOne) !! Z.to_nat (position wk)
       = Some newIt
    /\ forall j, j <> Z.to_nat (position wk) ->
                 beltSlots (belt Reference.loadedAfterOne) !! j = moved j.
Proof.
  apply (step_moves_belt (fun _ => Reference.half) Reference.loaded
                         Reference.loadedAfterOne).
  - vm_compute. reflexivity.
  - vm_compute. reflexivity.
Defined.

(** X16: over a completed run of [runSim] the countdown of every worker
    stays between 0 and [ASSEMBLE_TIME], and a worker counts down only while
    its two hands hold items that the finished product accepts as its
    components: if that is so for the workers at the start, it is so for the
    workers at the end. *)
Theorem runSim_countdown_invariant (rng : random_source) (steps : nat)
  (s s' : Sim) :
  (forall j w, workers (belt s) !! j = Some w ->
               0 <= amAssembling w <= ASSEMBLE_TIME
               /\ Life.countsOverMatch (heap s) (finishedItems (belt s)) w) ->
  runSim rng steps s = (Completed, s') ->
  forall j w', workers (belt s') !! j = Some w' ->
               0 <= amAssembling w' <= ASSEMBLE_TIME
               /\ Life.countsOverMatch (heap s') (finishedItems (belt s')) w'.
Proof.
  intros Hstart Hrun j w' Hj'.
  pose proof (runSim_workers_length rng steps s s' Hrun) as Hlen.
  apply runSim_evolves in Hrun as (Hkinds & Hfin & Hlife).
  destruct (workers (belt s) !! j) as [w|] eqn:Hj.
  - destruct (Hlife j w Hj) as (w1 & Hj1 & Hev).
    assert (w1 = w') by congruence. subst w1.
    destruct (Hstart j w Hj) as (Hrange & Hmatch). split.
    + now apply (evolves_countdown_range _ _ _ _ Hev).
    + rewrite Hfin.
      pose proof (evolves_countsOverMatch _ _ _ _ Hev Hmatch) as Hinv.
      intros Hpos. destruct (Hinv Hpos) as (l & r & ft & Hl & Hr & Hft & Hasm).
      exists l, r, ft. repeat split; try assumption.
      now rewrite (assemble_sameKinds _ _ Hkinds).
  - apply lookup_ge_None in Hj. apply lookup_lt_Some in Hj'. lia.
Qed.

Lemma runSim_countdown_invariant_witness :
  exists w', workers (belt Reference.loadedAfterThree) !! 2%nat = Some w'
             /\ 0 <= amAssembling w' <= ASSEMBLE_TIME
             /\ Life.countsOverMatch (heap Reference.loadedAfterThree)
                                     (finishedItems (belt Reference.loadedAfterThree))
                                     w'.
Proof.
  eexists. split; [vm_compute; reflexivity|].
  refine (runSim_countdown_invariant (fun _ => Reference.half) 3 Reference.loaded
                                     Reference.loadedAfterThree _ _ 2%nat _ _);
    [| vm_compute; reflexivity | vm_compute; reflexivity].
  - intros j w Hj.
    assert (Hidle : amAssembling w = 0).
    { do 6 (destruct j as [|j]; [now injection Hj as <-|]). discriminate. }
    split; [rewrite Hidle; unfold ASSEMBLE_TIME; lia|].
    intros Hpos. lia.
Defined.

End RunMoreClaims.

(** ** The loop of [main] in simple.c *)

Section SimpleLineFacts.
Import Simple.

Lemma rd_Some (belt : list Z) (i v : Z) :
  rd belt i = Some v ->
  0 <= i < Z.of_nat (length belt) /\ belt !! Z.to_nat i = Some v.
Proof.
  unfold rd. destruct (Z.ltb_spec i 0); [discriminate|].
  intros Hcell. split; [|exact Hcell].
  apply lookup_lt_Some in Hcell. lia.
Qed.

Lemma wr_in_range (belt : list Z) (i v : Z) :
  0 <= i < Z.of_nat (length belt) ->
  wr belt i v = Some (<[Z.to_nat i := v]> belt).
Proof.
  intros Hi. unfold wr.
  destruct (Z.leb_spec 0 i); [|lia].
  destruct (Z.ltb_spec i (Z.of_nat (length belt))); [reflexivity|lia].
Qed.

Lemma total_insert (f : Z -> Z) (l : list Z) :
  forall i old v,
    l !! i = Some old ->
    total (f <$> <[i := v]> l) = total (f <$> l) - f old + f v.
Proof.
  unfold total. induction l as [|x xs IH]; intros i old v; [discriminate|].
  destruct i as [|i]; cbn.
  - intros [= ->]. lia.
  - intros Hi. specialize (IH i old v Hi).
    transitivity (f x + (foldr Z.add 0 (f <$> xs) - f old + f v)); [|lia].
    f_equal. exact IH.
Qed.

Lemma placeNewItem_chosen (r : probability) (belt : list Z) :
  placeNewItem r belt = wr belt INPUT_SLOT (chosen r).
Proof.
  unfold placeNewItem, chosen.
  destruct (SFleb (float_of_Z 0) r && SFltb (double_of_float r) ONE_THIRD);
    [reflexivity|].
  now destruct (SFleb ONE_THIRD (double_of_float r)
                && SFleb (double_of_float r) TWO_THIRDS).
Qed.

Lemma chosen_cases (r : probability) :
  chosen r = COMPONENT_A \/ chosen r = COMPONENT_B \/ chosen r = COMPONENT_NULL.
Proof.
  unfold chosen.
  destruct (SFleb (float_of_Z 0) r && SFltb (double_of_float r) ONE_THIRD);
    [now left|].
  destruct (SFleb ONE_THIRD (double_of_float r)
            && SFleb (double_of_float r) TWO_THIRDS); auto.
Qed.

(** One call of [doWork] on a worker between two calls, over a slot that holds
    one of the four component values: it returns, it writes its own slot
    only, and no component is lost or made from nothing. *)
Lemma simple_doWork_step (w : worker) (belt : list Z) (slot : Z) :
  sane w -> rd belt (pos w) = Some slot -> 0 <= slot <= 3 ->
  exists w' v,
    doWork w belt = Some (w', <[Z.to_nat (pos w) := v]> belt)
    /\ pos w' = pos w /\ sane w' /\ 0 <= v <= 3
    /\ forall c, raw c -> inHands c w' + worth c v = inHands c w + worth c slot.
Proof.
  destruct w as [p l r t]. unfold sane, raw, inHands, worth.
  unfold COMPONENT_A, COMPONENT_B, COMPONENT_P, COMPONENT_NULL,
    TIME_TO_BUILD_COMPONENT_P. cbn [pos left right buildTimeLeft].
  intros Hsane Hslot Hrange.
  pose proof (rd_Some _ _ _ Hslot) as (Hp & Hcell).
  assert (Hwr : forall v, wr belt p v = Some (<[Z.to_nat p := v]> belt))
    by (intros v; now apply wr_in_range).
  assert (Hid : <[Z.to_nat p := slot]> belt = belt) by now apply list_insert_id.
  assert (Hs : slot = 0 \/ slot = 1 \/ slot = 2 \/ slot = 3) by lia.
  assert (Hw : (t = 0 /\ l = 0 /\ (r = 0 \/ r = 1 \/ r = 2 \/ r = 3))
               \/ ((t = 1 \/ t = 2 \/ t = 3 \/ t = 4)
                   /\ ((l = 1 /\ r = 2) \/ (l = 2 /\ r = 1)))) by lia.
  clear Hsane Hrange Hp.
  destruct Hs as [-> | [-> | [-> | ->]]];
    destruct Hw as [(-> & -> & [-> | [-> | [-> | ->]]])
                   | ([-> | [-> | [-> | ->]]] & [(-> & ->) | (-> & ->)])];
    unfold doWork, COMPONENT_A, COMPONENT_B, COMPONENT_P, COMPONENT_NULL,
      TIME_TO_BUILD_COMPONENT_P;
    cbn -[rd wr]; try change (1 - 1 =? 0) with true; try change (1 - 1) with 0;
    cbn -[rd wr]; rewrite ?Hslot; cbn -[rd wr]; rewrite ?Hwr; cbn -[rd wr];
    eexists _, _;
    (split;
     [first [reflexivity
            | refine (f_equal (fun b => Some (_, b)) (eq_sym _)); exact Hid]|]);
    cbn [pos left right buildTimeLeft];
    (split; [reflexivity|]); (split; [lia|]); (split; [lia|]);
    intros c [-> | ->]; reflexivity.
Qed.

End SimpleLineFacts.

Section SimpleLoopFacts.
Import Simple.

(** The round-robin loop over workers that are between two calls, on a belt
    of component values that covers their positions: every call returns, and
    the components in the hands and on the belt stay as many as they were. *)
Lemma simple_workAll_ok (ws : list worker) :
  forall windex belt,
    Forall (fun c => 0 <= c <= 3) belt ->
    Forall (fun w => 0 <= pos w < Z.of_nat (length belt) /\ sane w) ws ->
    exists ws' belt' called,
      workAll ws windex belt = Some (ws', belt', called)
      /\ length belt' = length belt
      /\ Forall (fun c => 0 <= c <= 3) belt'
      /\ Forall (fun w => 0 <= pos w < Z.of_nat (length belt) /\ sane w) ws'
      /\ forall c, raw c ->
           total (inHands c <$> ws') + onBelt c belt'
           = total (inHands c <$> ws) + onBelt c belt.
Proof.
  induction ws as [|w rest IH]; intros windex belt Hbelt Hws.
  - exists [], belt, []. repeat split; auto.
  - apply Forall_cons in Hws as ((Hpos & Hsane) & Hrest).
    destruct (lookup_lt_is_Some_2 belt (Z.to_nat (pos w))) as (slot & Hcell); [lia|].
    assert (Hslot : rd belt (pos w) = Some slot).
    { unfold rd. destruct (Z.ltb_spec (pos w) 0); [lia | exact Hcell]. }
    assert (Hrange : 0 <= slot <= 3)
      by exact (proj1 (Forall_lookup _ _) Hbelt _ _ Hcell).
    destruct (simple_doWork_step w belt slot Hsane Hslot Hrange)
      as (w' & v & Hdo & Hpos' & Hsane' & Hv & Hunits).
    destruct (IH (S windex) (<[Z.to_nat (pos w) := v]> belt))
      as (ws' & belt' & called & Hall & Hlen & Hbelt' & Hws' & Hrestunits).
    { now apply Forall_insert. }
    { now rewrite length_insert. }
    rewrite length_insert in Hlen, Hws'.
    exists (w' :: ws'), belt', (windex :: called).
    cbn [workAll]. rewrite Hdo. cbn. rewrite Hall. cbn.
    repeat split; try assumption.
    + apply Forall_cons. split; [|exact Hws']. split; [lia | exact Hsane'].
    + intros c Hc. specialize (Hunits c Hc). specialize (Hrestunits c Hc).
      unfold onBelt in *.
      rewrite (total_insert (worth c) belt _ slot v Hcell) in Hrestunits.
      unfold total in *. cbn [fmap list_fmap foldr] in *. lia.
Qed.

(** The four [if]s of [main] on a component value raise one counter. *)
Lemma countOutput_counted (out : Z) (t : tally) :
  0 <= out <= 3 -> tallyOk t -> counted t + 1 < 2 ^ 64 ->
  tallyOk (countOutput out t)
  /\ counted (countOutput out t) = counted t + 1
  /\ forall c, raw c -> cameOff c (countOutput out t) = cameOff c t + worth c out.
Proof.
  destruct t as [a b p z]. unfold tallyOk, counted, cameOff, worth, raw, countOutput.
  unfold COMPONENT_A, COMPONENT_B, COMPONENT_P, COMPONENT_NULL.
  cbn [compA compB compP compNull]. intros Hout (Ha & Hb & Hp & Hz) Hsum.
  assert (Hwrap : forall x, 0 <= x -> x + 1 < 2 ^ 64 -> u64 (x + 1) = x + 1)
    by (intros x Hx Hlt; unfold u64; apply Z.mod_small; lia).
  assert (Hs : out = 0 \/ out = 1 \/ out = 2 \/ out = 3) by lia.
  destruct Hs as [-> | [-> | [-> | ->]]]; cbn [Z.eqb Pos.eqb compA compB compP compNull];
    rewrite Hwrap by lia; (split; [lia|]); (split; [lia|]);
    intros c [-> | ->]; cbn; lia.
Qed.

(** One iteration of [main] from a state between two iterations. *)
Lemma iteration_ok (rng : random_source) (st : state) :
  stateOk st ->
  exists st' out,
    iteration rng st = Some st'
    /\ stateOk st'
    /\ drawn st' = S (drawn st)
    /\ rd (belt st) OUTPUT_SLOT = Some out
    /\ 0 <= out <= 3
    /\ counts st' = countOutput out (counts st)
    /\ forall c, raw c ->
         onBelt c (belt st') + total (inHands c <$> workers st') + worth c out
         = onBelt c (belt st) + total (inHands c <$> workers st)
           + (if chosen (rng (drawn st)) =? c then 1 else 0).
Proof.
  destruct st as [b ws t d]. unfold stateOk, beltOk. cbn [belt workers counts drawn].
  intros ((Hlen & Hcells) & Hws).
  destruct b as [|c0 [|c1 [|c2 [|c3 [|c4 [|]]]]]]; try discriminate.
  set (fresh := chosen (rng d)).
  assert (Hfresh : 0 <= fresh <= 3).
  { unfold fresh. destruct (chosen_cases (rng d)) as [-> | [-> | ->]];
      unfold COMPONENT_A, COMPONENT_B, COMPONENT_NULL; lia. }
  assert (Hnew : Forall (fun c => 0 <= c <= 3) [fresh; c0; c1; c2; c3]).
  { repeat (apply Forall_cons in Hcells as (? & Hcells)).
    repeat (apply Forall_cons; split; [assumption|]). constructor. }
  destruct (simple_workAll_ok ws 0 [fresh; c0; c1; c2; c3] Hnew)
    as (ws' & belt' & called & Hall & Hlen' & Hbelt' & Hws' & Hunits).
  { eapply Forall_impl; [exact Hws|]. cbn. unfold OUTPUT_SLOT.
    intros w ((? & ?) & ?). split; [lia | assumption]. }
  exists (mkstate belt' ws' (countOutput c4 t) (S d)), c4.
  unfold iteration. cbn [belt workers counts drawn].
  change (rd [c0; c1; c2; c3; c4] OUTPUT_SLOT) with (Some c4).
  cbn [mbind option_bind].
  change (moveBelt (Z.to_nat OUTPUT_SLOT) [c0; c1; c2; c3; c4])
    with (Some [c0; c0; c1; c2; c3]).
  cbn [mbind option_bind]. rewrite placeNewItem_chosen.
  change (wr [c0; c0; c1; c2; c3] INPUT_SLOT (chosen (rng d)))
    with (Some [fresh; c0; c1; c2; c3]).
  cbn [mbind option_bind]. rewrite Hall. cbn.
  repeat split; try assumption.
  - eapply Forall_impl; [exact Hws'|]. cbn. unfold OUTPUT_SLOT.
    intros w ((? & ?) & ?). split; [lia | assumption].
  - now repeat (apply Forall_cons in Hcells as (? & Hcells)).
  - now repeat (apply Forall_cons in Hcells as (? & Hcells)).
  - intros c Hc. specialize (Hunits c Hc).
    assert (Hworth : worth c fresh = if fresh =? c then 1 else 0).
    { unfold worth. destruct (chosen_cases (rng d)) as [Hf | [Hf | Hf]];
        fold fresh in Hf; rewrite Hf; destruct Hc as [-> | ->]; reflexivity. }
    unfold onBelt, total in *. cbn [fmap list_fmap foldr] in *. lia.
Qed.

(** A worker that is still building after the decrement returns at once. *)
Lemma simple_doWork_building (p l r t : Z) (belt : list Z) :
  1 < t -> doWork (mkworker p l r t) belt = Some (mkworker p l r (t - 1), belt).
Proof.
  intros Ht. unfold doWork. cbn [buildTimeLeft pos left right].
  destruct (Z.ltb_spec 0 t); [|lia].
  destruct (Z.eqb_spec (t - 1) 0); [lia | reflexivity].
Qed.

End SimpleLoopFacts.

Section SimpleLoopClaims.
Import Simple.

(** X17: the loop of [main] in simple.c never leaves its arrays and counts
    one item for each iteration.  From a state between two iterations (a belt
    of five component values, workers at slots of the belt that are idle with
    at most the right hand filled or building over one A and one B) any
    number of iterations runs to its end, whatever the draws; the state
    afterwards is of the same shape; one draw is taken for each iteration; and
    as long as the counters do not wrap, the four of them together have risen
    by the number of iterations. *)
Theorem iterations_count_every_turn (rng : random_source) (n : nat) :
  forall st,
    stateOk st -> tallyOk (counts st) ->
    counted (counts st) + Z.of_nat n < 2 ^ 64 ->
    exists st',
      iterations rng n st = Some st'
      /\ stateOk st'
      /\ drawn st' = (drawn st + n)%nat
      /\ tallyOk (counts st')
      /\ counted (counts st') = counted (counts st) + Z.of_nat n.
Proof.
  induction n as [|k IH]; intros st Hok Htally Hroom.
  - exists st. cbn [iterations]. split_and!; try assumption; try reflexivity; lia.
  - destruct (iteration_ok rng st Hok)
      as (st1 & out & Hiter & Hok1 & Hdrawn1 & _ & Hout & Hcounts & _).
    destruct (countOutput_counted out (counts st) Hout Htally)
      as (Htally1 & Hcounted1 & _); [lia|].
    rewrite <- Hcounts in Htally1, Hcounted1.
    destruct (IH st1 Hok1 Htally1) as (st' & Hrun & Hok' & Hdrawn' & Htally' & Hcounted');
      [lia|].
    exists st'. cbn [iterations]. rewrite Hiter. cbn [mbind option_bind].
    split_and!; try assumption; lia.
Qed.

Lemma iterations_count_every_turn_witness :
  exists st',
    iterations (fun _ => Reference.half) ITERATIONS initial = Some st'
    /\ stateOk st'
    /\ drawn st' = (drawn initial + ITERATIONS)%nat
    /\ tallyOk (counts st')
    /\ counted (counts st') = counted (counts initial) + Z.of_nat ITERATIONS.
Proof.
  apply (iterations_count_every_turn (fun _ => Reference.half) ITERATIONS initial).
  - split.
    + split; [reflexivity|]. repeat constructor; discriminate.
    + repeat constructor; try discriminate; left; cbn; repeat split; now left.
  - repeat split; discriminate.
  - reflexivity.
Defined.





(** X20: the assembly cycle of a worker of simple.c.  An idle worker with
    empty hands that is offered a raw component, then the other raw component,
    takes the first with its right hand and the second with its left, leaving
    the slot empty each time; it leaves the belt alone during the next three
    calls, whatever its slot holds; and on the fourth call after the second
    pickup ([TIME_TO_BUILD_COMPONENT_P]) it puts the finished P into its slot,
    if that is empty, and is idle with empty hands again. *)
Theorem simple_assembly_cycle (p a b : Z) (b1 b2 b3 b4 b5 b6 : list Z) :
  raw a -> raw b -> a <> b ->
  rd b1 p = Some a -> rd b2 p = Some b -> rd b6 p = Some COMPONENT_NULL ->
  serve (mkworker p COMPONENT_NULL COMPONENT_NULL 0) [b1; b2; b3; b4; b5; b6]
  = Some (mkworker p COMPONENT_NULL COMPONENT_NULL 0,
          [<[Z.to_nat p := COMPONENT_NULL]> b1;
           <[Z.to_nat p := COMPONENT_NULL]> b2;
           b3; b4; b5;
           <[Z.to_nat p := COMPONENT_P]> b6]).
Proof.
  intros Ha Hb Hab H1 H2 H6.
  assert (Hw1 : wr b1 p COMPONENT_NULL = Some (<[Z.to_nat p := COMPONENT_NULL]> b1))
    by (apply wr_in_range; now apply rd_Some in H1).
  assert (Hw2 : wr b2 p COMPONENT_NULL = Some (<[Z.to_nat p := COMPONENT_NULL]> b2))
    by (apply wr_in_range; now apply rd_Some in H2).
  assert (Hw6 : wr b6 p COMPONENT_P = Some (<[Z.to_nat p := COMPONENT_P]> b6))
    by (apply wr_in_range; now apply rd_Some in H6).
  assert (Hfirst : doWork (mkworker p COMPONENT_NULL COMPONENT_NULL 0) b1
                   = Some (mkworker p COMPONENT_NULL a 0,
                           <[Z.to_nat p := COMPONENT_NULL]> b1)).
  { unfold doWork. cbn [pos left right buildTimeLeft]. cbn -[rd wr].
    rewrite H1. cbn -[rd wr]. rewrite Hw1.
    destruct Ha as [-> | ->]; reflexivity. }
  assert (Hsecond : doWork (mkworker p COMPONENT_NULL a 0) b2
                    = Some (mkworker p b a TIME_TO_BUILD_COMPONENT_P,
                            <[Z.to_nat p := COMPONENT_NULL]> b2)).
  { unfold doWork. cbn [pos left right buildTimeLeft]. cbn -[rd wr].
    destruct Ha as [-> | ->], Hb as [-> | ->]; try contradiction;
      cbn -[rd wr]; rewrite H2; cbn -[rd wr]; rewrite Hw2; reflexivity. }
  assert (Hlast : doWork (mkworker p b a 1) b6
                  = Some (mkworker p COMPONENT_NULL COMPONENT_NULL 0,
                          <[Z.to_nat p := COMPONENT_P]> b6)).
  { unfold doWork. cbn [pos left right buildTimeLeft]. cbn -[rd wr].
    change (1 - 1 =? 0) with true. cbn -[rd wr].
    rewrite H6. cbn -[rd wr]. rewrite Hw6. reflexivity. }
  cbn [serve]. rewrite Hfirst. cbn [mbind option_bind].
  rewrite Hsecond. cbn [mbind option_bind].
  unfold TIME_TO_BUILD_COMPONENT_P.
  rewrite (simple_doWork_building p b a 4 b3) by lia. cbn [mbind option_bind].
  change (4 - 1) with 3.
  rewrite (simple_doWork_building p b a 3 b4) by lia. cbn [mbind option_bind].
  change (3 - 1) with 2.
  rewrite (simple_doWork_building p b a 2 b5) by lia. cbn [mbind option_bind].
  change (2 - 1) with 1.
  rewrite Hlast. reflexivity.
Qed.

Lemma simple_assembly_cycle_witness :
  serve (mkworker 2 COMPONENT_NULL COMPONENT_NULL 0)
        [[0; 0; 1; 0; 0]; [1; 0; 2; 0; 0]; [0; 1; 1; 0; 0];
         [2; 0; 3; 0; 0]; [0; 2; 2; 0; 0]; [1; 0; 0; 2; 0]]
  = Some (mkworker 2 COMPONENT_NULL COMPONENT_NULL 0,
          [<[Z.to_nat 2 := COMPONENT_NULL]> [0; 0; 1; 0; 0];
           <[Z.to_nat 2 := COMPONENT_NULL]> [1; 0; 2; 0; 0];
           [0; 1; 1; 0; 0]; [2; 0; 3; 0; 0]; [0; 2; 2; 0; 0];
           <[Z.to_nat 2 := COMPONENT_P]> [1; 0; 0; 2; 0]]).
Proof.
  apply (simple_assembly_cycle 2 COMPONENT_A COMPONENT_B).
  - now left.
  - now right.
  - discriminate.
  - reflexivity.
  - reflexivity.
  - reflexivity.
Defined.

End SimpleLoopClaims.
